(** * immich-slideshow: the style-transfer scripts and the model fetcher

    A shallow embedding of [conversion/stylize.py], [tensorflow/stylize.py]
    and [conversion/fetch_model.py].

    - Tensors are a shape together with row-major data.
    - [tf.float32] values are IEEE-754 binary32 numbers, represented with the
      Standard Library's [SpecFloat] at precision 24 and maximal exponent 128;
      integers are [Z].
    - The process environment (standard output, [os.environ], the file system)
      is threaded explicitly through the scripts.
    - What the scripts import (PIL, pillow_heif, the TensorFlow image
      primitives, the hub) is collected in the record [Library]; the scripts
      are functions of it. *)

From Stdlib Require Import ZArith List Bool String Ascii Lia.
From Stdlib Require Import Floats.SpecFloat.
From stdpp Require Import gmap strings.
Import ListNotations.

Local Open Scope Z_scope.

(** ** binary32 arithmetic as TensorFlow and NumPy perform it *)

Module F32.

Definition prec : Z := 24.
Definition emax : Z := 128.

Definition float32 : Type := spec_float.

(** A value that a binary32 register can hold. *)
Definition valid (x : float32) : bool := valid_binary prec emax x.

(** [tf.cast(n, tf.float32)], [tf.convert_to_tensor(n, dtype=tf.float32)]
    and the promotion of a Python integer operand: round to nearest even. *)
Definition of_Z (n : Z) : float32 := binary_normalize prec emax n 0 false.

Definition mul (x y : float32) : float32 := SFmul prec emax x y.
Definition div (x y : float32) : float32 := SFdiv prec emax x y.

Definition zero : float32 := of_Z 0.
Definition one : float32 := of_Z 1.

Definition leb (x y : float32) : bool := SFleb x y.
Definition ltb (x y : float32) : bool := SFltb x y.

(** The closed unit interval. *)
Definition in_unit (x : float32) : bool := leb zero x && leb x one.

(** Integer part, toward zero, of a finite value. *)
Definition truncate (x : float32) : option Z :=
  match x with
  | S754_zero _ => Some 0
  | S754_finite s m e =>
      let a := if 0 <=? e then Z.pos m * 2 ^ e else Z.pos m / 2 ^ (- e) in
      Some (if s then - a else a)
  | S754_infinity _ | S754_nan => None
  end.

Definition INT32_MIN : Z := - 2 ^ 31.
Definition INT32_MAX : Z := 2 ^ 31 - 1.

(** [tf.cast(x, tf.int32)] and the C conversion underneath NumPy's casts:
    truncation toward zero; a NaN, an infinity or a value outside the
    32-bit range gives the x86 "integer indefinite" value [INT32_MIN]
    (the result of [cvttss2si]). *)
Definition to_int32 (x : float32) : Z :=
  match truncate x with
  | Some z => if (INT32_MIN <=? z) && (z <=? INT32_MAX) then z else INT32_MIN
  | None => INT32_MIN
  end.

(** [np.array(x, dtype=np.uint8)] on a binary32 value: the C conversion to
    an 8-bit unsigned integer keeps the low byte of the 32-bit conversion;
    nothing clamps. *)
Definition to_uint8 (x : float32) : Z := to_int32 x mod 256.

(** [max] of two values ([tf.reduce_max], Python's [max] on scalars). *)
Definition fmax (x y : float32) : float32 := if ltb x y then y else x.

(** [floor (k * x)] for the exact real product, for finite [x]. *)
Definition floor_times (k : Z) (x : float32) : option Z :=
  match x with
  | S754_zero _ => Some 0
  | S754_finite s m e =>
      let n := if s then - (k * Z.pos m) else k * Z.pos m in
      Some (if 0 <=? e then n * 2 ^ e else n / 2 ^ (- e))
  | S754_infinity _ | S754_nan => None
  end.

End F32.

Abbreviation float32 := F32.float32.

(** ** Tensors *)

Record tensor (A : Type) : Type := Tensor { shape : list Z; data : list A }.
Arguments Tensor {A} shape data.
Arguments shape {A} t.
Arguments data {A} t.

(** [np.ndim] *)
Definition ndim {A} (t : tensor A) : Z := Z.of_nat (length (shape t)).

(** element-wise operation *)
Definition tmap {A B} (f : A -> B) (t : tensor A) : tensor B :=
  Tensor (shape t) (map f (data t)).

Definition numel (s : list Z) : Z := fold_right Z.mul 1 s.

(** [t[0]]: the first slice along the leading axis *)
Definition index0 {A} (t : tensor A) : tensor A :=
  Tensor (tl (shape t)) (firstn (Z.to_nat (numel (tl (shape t)))) (data t)).

(** [t[tf.newaxis, :]] *)
Definition newaxis {A} (t : tensor A) : tensor A := Tensor (1 :: shape t) (data t).

(** ** Python strings as far as the scripts use them *)

(** [str.lower] on the ASCII letters; a path is kept as its UTF-8 bytes, and
    no byte of a multi-byte character is below 128. *)
Definition lower_ascii (c : ascii) : ascii :=
  let n := nat_of_ascii c in
  if ((65 <=? n) && (n <=? 90))%nat then ascii_of_nat (n + 32) else c.

Fixpoint lower (s : string) : string :=
  match s with
  | EmptyString => EmptyString
  | String c s' => String (lower_ascii c) (lower s')
  end.

(** [str.endswith]: some tail of [s] is [suffix]. *)
Fixpoint endswith (s suffix : string) : bool :=
  String.eqb s suffix ||
  match s with
  | EmptyString => false
  | String _ s' => endswith s' suffix
  end.

(** ** Outcomes of a Python computation *)

Inductive exn : Type :=
| SystemExit (code : Z)       (* [exit(code)] *)
| AssertionError              (* a failed [assert] *)
| OSError                     (* a missing or unusable file or directory *)
| IndexError
| LibraryError.               (* an exception raised inside an imported library *)

Inductive outcome (A : Type) : Type :=
| Ok (a : A)
| Raise (e : exn).
Arguments Ok {A} a.
Arguments Raise {A} e.

Definition bind {A B} (c : outcome A) (k : A -> outcome B) : outcome B :=
  match c with
  | Ok a => k a
  | Raise e => Raise e
  end.

Notation "'let*' x ':=' c 'in' k" := (bind c (fun x => k))
  (at level 10, x name, c at level 100, k at level 200).

(** A library call that either returns or raises inside the library. *)
Definition lift {A} (r : option A) : outcome A :=
  match r with
  | Some a => Ok a
  | None => Raise LibraryError
  end.

(** The status the interpreter exits with. *)
Definition exit_code {A} (r : outcome A) : Z :=
  match r with
  | Ok _ => 0
  | Raise (SystemExit c) => c
  | Raise _ => 1
  end.

(** ** Images and the imported libraries *)

Definition blob : Type := list Z.

(** 8-bit PIL modes: greyscale, greyscale with alpha, colour, colour with alpha. *)
Inductive mode : Type := L | LA | RGB | RGBA.

Definition bands (m : mode) : Z :=
  match m with L => 1 | LA => 2 | RGB => 3 | RGBA => 4 end.

(** A PIL image: [pixels] has one list of band values per pixel, row by row. *)
Record pil_image : Type := PilImage {
  im_mode : mode;
  im_width : Z;
  im_height : Z;
  pixels : list (list Z)
}.

(** What [pillow_heif.read_heif] returns. *)
Record heif_file : Type := HeifFile {
  hf_mode : mode;
  hf_size : Z * Z;
  hf_data : list Z;
  hf_stride : Z
}.

(** The stylization network: two batched images in, a list of outputs out. *)
Definition model : Type :=
  tensor float32 -> tensor float32 -> option (list (tensor float32)).

Record Library : Type := {
  (** [PIL.Image.open] on the bytes of a file *)
  Image_open : blob -> option pil_image;
  (** [pillow_heif.read_heif] on the bytes of a file *)
  read_heif : blob -> option heif_file;
  (** [Image.frombytes(mode, size, data, "raw", mode, stride)] *)
  Image_frombytes : mode -> Z * Z -> list Z -> mode -> Z -> option pil_image;
  (** [Image.fromarray] on an 8-bit array *)
  Image_fromarray : tensor Z -> option pil_image;
  (** the encoder behind [Image.save], chosen from the extension of the path *)
  Image_encode : pil_image -> string -> option blob;
  (** [tf.image.decode_image(bytes, channels=3)] *)
  decode_image : blob -> option (tensor Z);
  (** [tf.image.resize(img, size)] *)
  resize : tensor float32 -> list Z -> option (tensor float32);
  (** [hub.load] of a URL *)
  hub_load : string -> option model
}.

(** ** The process environment *)

Inductive node : Type :=
| File (content : blob)
| Dir (saved : option model).   (* a directory, and the model saved in it if any *)

Record world : Type := World {
  stdout : list string;
  environ : gmap string string;
  files : gmap string node
}.

Definition print (line : string) (w : world) : world :=
  World (stdout w ++ [line]) (environ w) (files w).

Definition setenv (k v : string) (w : world) : world :=
  World (stdout w) (<[k := v]> (environ w)) (files w).

Definition write_file (p : string) (b : blob) (w : world) : world :=
  World (stdout w) (environ w) (<[p := File b]> (files w)).

(** Reading the bytes of the file at a path. *)
Definition read_file (fs : gmap string node) (p : string) : outcome blob :=
  match fs !! p with
  | Some (File b) => Ok b
  | _ => Raise OSError
  end.

(** [tf.saved_model.load] *)
Definition saved_model_load (fs : gmap string node) (p : string) : outcome model :=
  match fs !! p with
  | Some (Dir (Some m)) => Ok m
  | _ => Raise OSError
  end.

(** ** The two [stylize.py] scripts *)

Inductive variant : Type :=
| Conversion    (* conversion/stylize.py: PIL and pillow_heif decode *)
| Tensorflow.   (* tensorflow/stylize.py: TensorFlow decodes *)

Module Stylize.

Definition usage : string :=
  "Usage: python3 stylize.py <content_image_path> <style_image_path> <output_image_path>".

Definition saved_model_path : string := "/app/saved_model".

Section WithLibrary.

Variable lib : Library.

(** [tensor_to_image] (identical in the two scripts) *)
Definition tensor_to_image (t : tensor float32) : outcome pil_image :=
  let t := tmap (fun v => F32.mul v (F32.of_Z 255)) t in
  let t := tmap F32.to_uint8 t in
  if 3 <? ndim t then
    if hd 0 (shape t) =? 1
    then lift (Image_fromarray lib (index0 t))
    else Raise AssertionError
  else lift (Image_fromarray lib t).

(** [img.convert("RGB")] *)
Definition rgb_of_pixel (m : mode) (px : list Z) : list Z :=
  match m, px with
  | L, v :: _ => [v; v; v]
  | LA, v :: _ => [v; v; v]
  | RGB, r :: g :: b :: _ => [r; g; b]
  | RGBA, r :: g :: b :: _ => [r; g; b]
  | _, _ => [0; 0; 0]
  end.

Definition convert_RGB (img : pil_image) : pil_image :=
  PilImage RGB (im_width img) (im_height img)
           (map (rgb_of_pixel (im_mode img)) (pixels img)).

(** [np.array(img)] *)
Definition np_array (img : pil_image) : tensor Z :=
  Tensor [im_height img; im_width img; bands (im_mode img)] (concat (pixels img)).

(** The test that selects the decoder in [conversion/stylize.py]. *)
Definition is_heic_path (path_to_img : string) : bool :=
  endswith (lower path_to_img) ".heic".

(** Decoding in [conversion/stylize.py], up to the conversion to RGB. *)
Definition open_image (fs : gmap string node) (path_to_img : string)
  : outcome pil_image :=
  if is_heic_path path_to_img then
    let* bytes := read_file fs path_to_img in
    let* heif := lift (read_heif lib bytes) in
    lift (Image_frombytes lib (hf_mode heif) (hf_size heif) (hf_data heif)
                          (hf_mode heif) (hf_stride heif))
  else
    let* bytes := read_file fs path_to_img in
    lift (Image_open lib bytes).

(** [tf.convert_to_tensor(img, dtype=tf.float32) / 255.0] *)
Definition normalize_pixel (k : Z) : float32 :=
  F32.div (F32.of_Z k) (F32.of_Z 255).

(** [tf.image.convert_image_dtype(img, tf.float32)] on 8-bit pixels:
    the cast value times the scale [1 / 255]. *)
Definition convert_image_dtype_pixel (k : Z) : float32 :=
  F32.mul (F32.of_Z k) (F32.div (F32.of_Z 1) (F32.of_Z 255)).

(** The image as a normalized float tensor, before resizing. *)
Definition decode (v : variant) (fs : gmap string node) (path_to_img : string)
  : outcome (tensor float32) :=
  match v with
  | Conversion =>
      let* img := open_image fs path_to_img in
      let img := convert_RGB img in
      let img := np_array img in
      Ok (tmap normalize_pixel img)
  | Tensorflow =>
      let* bytes := read_file fs path_to_img in
      let* img := lift (decode_image lib bytes) in
      Ok (tmap convert_image_dtype_pixel img)
  end.

(** [tf.cast(tf.shape(img)[:-1], tf.float32)] *)
Definition spatial_shape (img : tensor float32) : list float32 :=
  map F32.of_Z (removelast (shape img)).

(** [tf.reduce_max(shape)], equally [max(shape)] *)
Definition reduce_max (l : list float32) : float32 :=
  fold_right F32.fmax (S754_infinity true) l.

(** [max_dim / long_dim] *)
Definition scale_of (max_dim : Z) (shape : list float32) : float32 :=
  F32.div (F32.of_Z max_dim) (reduce_max shape).

(** [tf.cast(shape * scale, tf.int32)] *)
Definition new_shape_of (max_dim : Z) (shape : list float32) : list Z :=
  let scale := scale_of max_dim shape in
  map (fun s => F32.to_int32 (F32.mul s scale)) shape.

(** The size that [load_img] requests for an image of shape [(h, w, _)]. *)
Definition new_shape (max_dim : Z) (hw : list Z) : list Z :=
  new_shape_of max_dim (map F32.of_Z hw).

(** The part of [load_img] after decoding: resize and add the batch axis. *)
Definition resize_and_batch (img : tensor float32) (max_dim : Z)
  : outcome (tensor float32) :=
  let shape := spatial_shape img in
  let new_shape := new_shape_of max_dim shape in
  let* img := lift (resize lib img new_shape) in
  Ok (newaxis img).

Definition load_img (v : variant) (fs : gmap string node)
           (path_to_img : string) (max_dim : Z) : outcome (tensor float32) :=
  let* img := decode v fs path_to_img in
  resize_and_batch img max_dim.

(** [hub_model(content, style)[0]] *)
Definition stylize (hub_model : model) (content style : tensor float32)
  : outcome (tensor float32) :=
  let* outputs := lift (hub_model content style) in
  match outputs with
  | out :: _ => Ok out
  | [] => Raise IndexError
  end.

(** The script after the argument check, up to the image to save. *)
Definition pipeline (v : variant) (fs : gmap string node)
           (content_path style_path : string) : outcome pil_image :=
  let* hub_model := saved_model_load fs saved_model_path in
  let* content_image := load_img v fs content_path 1024 in
  let* style_image := load_img v fs style_path 450 in
  let* stylized_image := stylize hub_model content_image style_image in
  tensor_to_image stylized_image.

(** [combined.save(path)] *)
Definition save (img : pil_image) (path : string) (w : world)
  : outcome unit * world :=
  match Image_encode lib img path with
  | Some b => (Ok tt, write_file path b w)
  | None => (Raise LibraryError, w)
  end.

(** The whole script, from [sys.argv] and the environment it starts in. *)
Definition main (v : variant) (argv : list string) (w : world)
  : outcome unit * world :=
  if negb (Z.of_nat (length argv) =? 4) then
    (Raise (SystemExit 1), print usage w)
  else
    let w := setenv "TF_ENABLE_ONEDNN_OPTS" "0" w in
    let w := setenv "TF_CPP_MIN_LOG_LEVEL" "2" w in
    let content_path := nth 1 argv EmptyString in
    let style_path := nth 2 argv EmptyString in
    match pipeline v (files w) content_path style_path with
    | Ok combined => save combined (nth 3 argv EmptyString) w
    | Raise e => (Raise e, w)
    end.

End WithLibrary.

End Stylize.

(** ** [fetch_model.py] *)

Module FetchModel.

Definition local_model_path : string := "/app/saved_model".

Definition model_url : string :=
  "https://tfhub.dev/google/magenta/arbitrary-image-stylization-v1-256/2".

(** The directories to create for a path, outermost first: the prefixes
    that end before a separator, then the path itself. *)
Fixpoint ancestors_from (seen rest : string) : list string :=
  match rest with
  | EmptyString => if String.eqb seen "" then [] else [seen]
  | String c rest' =>
      if Ascii.eqb c "/" then
        (if String.eqb seen "" then [] else [seen])
          ++ ancestors_from (seen ++ "/") rest'
      else ancestors_from (seen ++ String c "") rest'
  end.

Definition ancestors (p : string) : list string := ancestors_from "" p.

(** [os.makedirs(p, exist_ok=True)]: every missing directory on the way is
    created, an existing directory is accepted, a file in the way raises. *)
Fixpoint makedirs_along (dirs : list string) (fs : gmap string node)
  : outcome (gmap string node) :=
  match dirs with
  | [] => Ok fs
  | d :: dirs' =>
      match fs !! d with
      | None => makedirs_along dirs' (<[d := Dir None]> fs)
      | Some (Dir _) => makedirs_along dirs' fs
      | Some (File _) => Raise OSError
      end
  end.

Definition makedirs (p : string) (fs : gmap string node)
  : outcome (gmap string node) :=
  makedirs_along (ancestors p) fs.

(** [tf.saved_model.save(m, p)] into a directory *)
Definition saved_model_save (m : model) (p : string) (fs : gmap string node)
  : outcome (gmap string node) :=
  match fs !! p with
  | Some (File _) => Raise OSError
  | _ => Ok (<[p := Dir (Some m)]> fs)
  end.

Definition main (lib : Library) (w : world) : outcome unit * world :=
  match hub_load lib model_url with
  | None => (Raise LibraryError, w)
  | Some hub_model =>
      match makedirs local_model_path (files w) with
      | Raise e => (Raise e, w)
      | Ok fs =>
          let w := World (stdout w) (environ w) fs in
          match saved_model_save hub_model local_model_path fs with
          | Raise e => (Raise e, w)
          | Ok fs =>
              let w := World (stdout w) (environ w) fs in
              (Ok tt, print "Model saved to /app/saved_model" w)
          end
      end
  end.

End FetchModel.

(** ** Integer ranges *)

Definition Zrange (lo : Z) (n : nat) : list Z :=
  map (fun i => lo + Z.of_nat i) (seq 0 n).

(** ** A reference instance of the libraries

    A small executable stand-in for the imported libraries, on a toy
    container format: [1 :: w :: h :: bytes] is a raster image that the
    general-purpose decoders read, [2 :: w :: h :: bytes] an HEIC image that
    only pillow_heif reads.  Resizing takes the nearest pixel. *)

Module Reference.

Fixpoint group3 (l : list Z) : list (list Z) :=
  match l with
  | r :: g :: b :: l' => [r; g; b] :: group3 l'
  | _ => []
  end.

Definition byte (k : Z) : Z := k mod 256.

Definition pil_open (b : blob) : option pil_image :=
  match b with
  | 1 :: w :: h :: px => Some (PilImage RGB w h (group3 (map byte px)))
  | _ => None
  end.

Definition heif_read (b : blob) : option heif_file :=
  match b with
  | 2 :: w :: h :: px => Some (HeifFile RGB (w, h) (map byte px) (3 * w))
  | _ => None
  end.

Definition frombytes (m : mode) (size : Z * Z) (bytes : list Z)
           (rawmode : mode) (stride : Z) : option pil_image :=
  match m with
  | RGB => Some (PilImage RGB (fst size) (snd size) (group3 (map byte bytes)))
  | _ => None
  end.

Definition fromarray (t : tensor Z) : option pil_image :=
  match shape t with
  | [h; w; 3] => Some (PilImage RGB w h (group3 (data t)))
  | _ => None
  end.

Definition encode (img : pil_image) (path : string) : option blob :=
  Some (1 :: im_width img :: im_height img :: concat (pixels img)).

Definition tf_decode (b : blob) : option (tensor Z) :=
  match b with
  | 1 :: w :: h :: px => Some (Tensor [h; w; 3] (map byte px))
  | _ => None
  end.

Definition nearest (t : tensor float32) (h w c h' w' : Z) : list float32 :=
  flat_map (fun y =>
    flat_map (fun x =>
      map (fun ch =>
             nth (Z.to_nat (((y * h / h') * w + x * w / w') * c + ch))
                 (data t) F32.zero)
          (Zrange 0 (Z.to_nat c)))
      (Zrange 0 (Z.to_nat w')))
    (Zrange 0 (Z.to_nat h')).

Definition tf_resize (t : tensor float32) (size : list Z)
  : option (tensor float32) :=
  match shape t, size with
  | [h; w; c], [h'; w'] =>
      if (0 <? h') && (0 <? w')
      then Some (Tensor [h'; w'; c] (nearest t h w c h' w'))
      else None
  | _, _ => None
  end.

(** A network that returns its content image. *)
Definition network : model := fun content style => Some [content].

Definition hub (url : string) : option model :=
  if String.eqb url FetchModel.model_url then Some network else None.

Definition lib : Library :=
  {| Image_open := pil_open;
     read_heif := heif_read;
     Image_frombytes := frombytes;
     Image_fromarray := fromarray;
     Image_encode := encode;
     decode_image := tf_decode;
     resize := tf_resize;
     hub_load := hub |}.

(** The same libraries without a general-purpose [Image.open]. *)
Definition without_open : Library :=
  {| Image_open := fun _ => None;
     read_heif := heif_read;
     Image_frombytes := frombytes;
     Image_fromarray := fromarray;
     Image_encode := encode;
     decode_image := tf_decode;
     resize := tf_resize;
     hub_load := hub |}.

(** A 2 x 1 raster image and the same pixels in the HEIC container. *)
Definition raster : blob := [1; 2; 1; 255; 128; 0; 10; 20; 30].
Definition heic : blob := [2; 2; 1; 255; 128; 0; 10; 20; 30].

Definition empty_world : world := World [] ∅ ∅.

(** A machine with the model fetched and two images on disk. *)
Definition fs : gmap string node :=
  <["/app/saved_model" := Dir (Some network)]>
    (<["/app" := Dir None]>
       (<["content.jpg" := File raster]>
          (<["style.HEIC" := File heic]> ∅))).

End Reference.

(** ** What the scripts rely on in the libraries *)

(** The 8-bit array that [tensor_to_image] builds, before a batch axis is
    removed: [np.array(tensor*255, dtype=np.uint8)]. *)
Definition byte_array (t : tensor float32) : tensor Z :=
  tmap F32.to_uint8 (tmap (fun v => F32.mul v (F32.of_Z 255)) t).


Module Contract.

Definition byte_pixel (k : Z) : Prop := 0 <= k <= 255.

Definition unit_pixel (v : float32) : Prop :=
  F32.valid v = true /\ F32.in_unit v = true.

(** [tf.image.resize] takes a size of two entries and returns, for an image
    of shape (height, width, channels), the requested height and width with
    the channels of the image. *)
Definition resize_shape (lib : Library) : Prop :=
  forall img size out,
    resize lib img size = Some out ->
    length size = 2%nat
    /\ (length (shape img) = 3%nat ->
        shape out = size ++ [List.last (shape img) 0]).

(** [tf.image.resize] raises on a size with an entry that is not positive. *)
Definition resize_positive (lib : Library) : Prop :=
  forall img size n, In n size -> n <= 0 -> resize lib img size = None.

(** [tf.image.resize] interpolates: values of the unit interval stay there. *)
Definition resize_unit (lib : Library) : Prop :=
  forall img size out,
    resize lib img size = Some out ->
    Forall unit_pixel (data img) -> Forall unit_pixel (data out).

(** The decoders return 8-bit pixels. *)
Definition decoders_8bit (lib : Library) : Prop :=
  (forall b img, Image_open lib b = Some img ->
                 Forall (Forall byte_pixel) (pixels img))
  /\ (forall m size bytes rawmode stride img,
         Image_frombytes lib m size bytes rawmode stride = Some img ->
         Forall (Forall byte_pixel) (pixels img))
  /\ (forall b t, decode_image lib b = Some t -> Forall byte_pixel (data t)).

(** [tf.image.decode_image(bytes, channels=3)] returns three channels. *)
Definition decode_three_channels (lib : Library) : Prop :=
  forall b t, decode_image lib b = Some t -> List.last (shape t) 0 = 3.

End Contract.

(** ** Rounding to nearest even, as [SpecFloat] performs it *)

Module Round.

(** The integer nearest to [N / D], ties to even. *)
Definition rne (N D : Z) : Z :=
  let q := N / D in
  let r := N mod D in
  match 2 * r ?= D with
  | Lt => q
  | Eq => if Z.even q then q else q + 1
  | Gt => q + 1
  end.

(** Where [N / D] lies between [N / D] rounded down and its successor. *)
Definition mkloc (D r : Z) : location :=
  if r =? 0 then loc_Exact else loc_Inexact (2 * r ?= D).

(** A shift record holds the integer part and the position of [N / D]. *)
Definition represents (rec : shr_record) (N D : Z) : Prop :=
  shr_m rec = N / D /\ loc_of_shr_record rec = mkloc D (N mod D).

Definition fexp32 (e : Z) : Z := fexp F32.prec F32.emax e.

(** No product [255 * m] of a 24-bit mantissa [m] lies within half a unit
    in the last place below a multiple [n1 * 2 ^ s] of a power of two. *)
Definition gap_check (s n1 : Z) : bool :=
  let t := n1 * 2 ^ s in
  let delta := t mod 255 in
  let P := t - delta in
  (delta =? 0) || (128 <? delta) || negb (P <? 255 * 2 ^ 24)
  || (2 ^ Zdigits2 (P * 2 ^ 16) <? delta * 2 ^ 41).

End Round.

(** * Facts about binary32 rounding *)

Module RoundFacts.

  Import Round.

Lemma digits2_pos_bounds p :
  2 ^ (Z.pos (digits2_pos p) - 1) <= Z.pos p < 2 ^ Z.pos (digits2_pos p).
Proof.
  induction p as [p IH|p IH|]; cbn [digits2_pos].
  - rewrite Pos2Z.inj_succ. replace (Z.succ (Z.pos (digits2_pos p)) - 1) with (Z.pos (digits2_pos p)) by lia.
    rewrite Z.pow_succ_r by lia. 
    assert (H : 2 ^ Z.pos (digits2_pos p) = 2 * 2 ^ (Z.pos (digits2_pos p) - 1)).
    { rewrite <- Z.pow_succ_r by lia. f_equal. lia. }
    lia.
  - rewrite Pos2Z.inj_succ. replace (Z.succ (Z.pos (digits2_pos p)) - 1) with (Z.pos (digits2_pos p)) by lia.
    rewrite Z.pow_succ_r by lia. 
    assert (H : 2 ^ Z.pos (digits2_pos p) = 2 * 2 ^ (Z.pos (digits2_pos p) - 1)).
    { rewrite <- Z.pow_succ_r by lia. f_equal. lia. }
    lia.
  - cbn. lia.
Qed.

Lemma iter_pos_nat {A} (f : A -> A) p x :
  SpecFloat.iter_pos f p x = Nat.iter (Pos.to_nat p) f x.
Proof.
  revert x. induction p as [p IH|p IH|]; intros x; cbn [SpecFloat.iter_pos].
  - rewrite !IH. rewrite Pos2Nat.inj_xI.
    replace (S (2 * Pos.to_nat p))%nat with (S (Pos.to_nat p + Pos.to_nat p))%nat by lia.
    rewrite Nat.iter_succ_r. rewrite PeanoNat.Nat.iter_add. reflexivity.
  - rewrite !IH. rewrite Pos2Nat.inj_xO.
    replace (2 * Pos.to_nat p)%nat with (Pos.to_nat p + Pos.to_nat p)%nat by lia.
    rewrite PeanoNat.Nat.iter_add. reflexivity.
  - reflexivity.
Qed.

Lemma shr_1_nonneg m r s :
  0 <= m -> shr_1 (Build_shr_record m r s) = Build_shr_record (m / 2) (Z.odd m) (r || s).
Proof.
  intros Hm. destruct m as [|p|p]; [reflexivity| |lia].
  destruct p as [p|p|]; cbn [shr_1].
  - replace (Z.pos p~1 / 2) with (Z.pos p); [reflexivity|].
    rewrite Pos2Z.inj_xI. apply Z.div_unique with (r := 1); lia.
  - replace (Z.pos p~0 / 2) with (Z.pos p); [reflexivity|].
    rewrite Pos2Z.inj_xO. apply Z.div_unique with (r := 0); lia.
  - reflexivity.
Qed.

Lemma represents_shr_1 rec N D :
  0 <= N -> 0 < D -> represents rec N D -> represents (shr_1 rec) N (2 * D).
Proof.
  intros HN HD [Hm Hl]. destruct rec as [m r s]. cbn [shr_m] in Hm.
  assert (Hm0 : 0 <= m) by (subst m; apply Z.div_pos; lia).
  rewrite shr_1_nonneg by exact Hm0.
  pose proof (Z.div_mod N D ltac:(lia)) as HND.
  pose proof (Z.mod_pos_bound N D HD) as Hr.
  pose proof (Z.div_mod m 2 ltac:(lia)) as Hm2.
  pose proof (Z.mod_pos_bound m 2 ltac:(lia)) as Hb.
  assert (Hq : N / (2 * D) = m / 2).
  { rewrite Z.mul_comm, <- Z.div_div by lia. now rewrite <- Hm. }
  assert (Hr' : N mod (2 * D) = (m mod 2) * D + N mod D).
  { symmetry. apply Z.mod_unique with (q := m / 2); [nia|].
    rewrite <- Hm in HND. nia. }
  split; [cbn [shr_m]; now rewrite Hq|].
  rewrite Hr'. rewrite Zodd_mod.
  unfold mkloc in *. cbn [loc_of_shr_record] in *.
  destruct (Z.eqb_spec (m mod 2) 1) as [E1|E1].
  - rewrite E1.
    destruct (Z.eqb_spec (N mod D) 0) as [E0|E0].
    + rewrite E0. destruct r, s; try discriminate Hl. cbn [orb].
      destruct (Z.eqb_spec (1 * D + 0) 0); [lia|].
      replace (2 * (1 * D + 0) ?= 2 * D) with Eq; [reflexivity|].
      symmetry. apply Z.compare_eq_iff. lia.
    + destruct (Z.eqb_spec (1 * D + N mod D) 0); [lia|].
      replace (2 * (1 * D + N mod D) ?= 2 * D) with Gt.
      2:{ symmetry. apply Z.compare_gt_iff. lia. }
      destruct r, s; try discriminate Hl; reflexivity.
  - assert (E0 : m mod 2 = 0) by lia. rewrite E0.
    replace (0 * D + N mod D) with (N mod D) by lia.
    destruct (Z.eqb_spec (N mod D) 0) as [E2|E2].
    + destruct r, s; try discriminate Hl. reflexivity.
    + replace (2 * (N mod D) ?= 2 * D) with Lt.
      2:{ symmetry. apply Z.compare_lt_iff. lia. }
      destruct r, s; try discriminate Hl; reflexivity.
Qed.

Lemma represents_iter n rec N D :
  0 <= N -> 0 < D -> represents rec N D ->
  represents (Nat.iter n shr_1 rec) N (D * 2 ^ Z.of_nat n).
Proof.
  intros HN HD. induction n as [|n IH]; intros H.
  - cbn [Nat.iter]. now rewrite Z.mul_1_r.
  - rewrite Nat.iter_succ. rewrite Nat2Z.inj_succ, Z.pow_succ_r by lia.
    replace (D * (2 * 2 ^ Z.of_nat n)) with (2 * (D * 2 ^ Z.of_nat n)) by lia.
    apply represents_shr_1; [lia| |now apply IH].
    apply Z.mul_pos_pos; [lia|]. apply Z.pow_pos_nonneg; lia.
Qed.

Lemma represents_of_loc N D :
  represents (shr_record_of_loc (N / D) (mkloc D (N mod D))) N D.
Proof.
  split; destruct (mkloc D (N mod D)) as [|[]]; reflexivity.
Qed.

Lemma represents_shr N D e k :
  0 <= N -> 0 < D -> 0 <= k ->
  exists rec, shr (shr_record_of_loc (N / D) (mkloc D (N mod D))) e k = (rec, e + k)
              /\ represents rec N (D * 2 ^ k).
Proof.
  intros HN HD Hk. destruct k as [|p|p]; [| |lia].
  - eexists. split; [cbn [shr]; now rewrite Z.add_0_r|].
    rewrite Z.mul_1_r. apply represents_of_loc.
  - eexists. split; [reflexivity|].
    rewrite iter_pos_nat. rewrite <- (positive_nat_Z p).
    apply represents_iter; try assumption. apply represents_of_loc.
Qed.

Lemma round_nearest_even_rne rec N D :
  0 < D -> represents rec N D ->
  round_nearest_even (shr_m rec) (loc_of_shr_record rec) = rne N D.
Proof.
  intros HD [Hm Hl]. rewrite Hm, Hl. unfold rne, mkloc.
  pose proof (Z.mod_pos_bound N D HD) as Hr.
  destruct (Z.eqb_spec (N mod D) 0) as [E|E].
  - rewrite E. cbn [round_nearest_even].
    destruct (Z.compare_spec (2 * 0) D); [lia|reflexivity|lia].
  - cbn [round_nearest_even]. destruct (2 * (N mod D) ?= D); reflexivity.
Qed.

Lemma rne_bounds N D :
  0 < D -> N / D <= rne N D <= N / D + 1.
Proof.
  intros HD. unfold rne. destruct (2 * (N mod D) ?= D); [destruct (Z.even (N / D))| |]; lia.
Qed.

Lemma rne_error N D :
  0 < D -> 2 * Z.abs (rne N D * D - N) <= D.
Proof.
  intros HD. unfold rne.
  pose proof (Z.div_mod N D ltac:(lia)) as HND.
  pose proof (Z.mod_pos_bound N D HD) as Hr.
  destruct (Z.compare_spec (2 * (N mod D)) D); [destruct (Z.even (N / D))| |]; nia.
Qed.

Lemma rne_ge N D a : 0 < D -> a * D <= N -> a <= rne N D.
Proof.
  intros HD H. pose proof (rne_bounds N D HD).
  assert (a <= N / D) by (apply Z.div_le_lower_bound; lia). lia.
Qed.

Lemma rne_le N D b : 0 < D -> N <= b * D -> rne N D <= b.
Proof.
  intros HD H. unfold rne.
  pose proof (Z.div_mod N D ltac:(lia)) as HND.
  pose proof (Z.mod_pos_bound N D HD) as Hr.
  assert (N / D <= b) by (apply Z.div_le_upper_bound; lia).
  destruct (Z.eq_dec (N / D) b) as [E|E].
  - assert (N mod D = 0) by nia.
    destruct (Z.compare_spec (2 * (N mod D)) D); [lia|lia|lia].
  - destruct (2 * (N mod D) ?= D); [destruct (Z.even (N / D))| |]; lia.
Qed.

Lemma rne_exact a D : 0 < D -> rne (a * D) D = a.
Proof.
  intros HD. unfold rne. rewrite Z.div_mul, Z.mod_mul by lia.
  destruct (Z.compare_spec (2 * 0) D); [lia|reflexivity|lia].
Qed.

Lemma fexp32_eq e : fexp32 e = Z.max (e - 24) (-149).
Proof. reflexivity. Qed.

Lemma Zdigits2_bounds m :
  0 < m -> 2 ^ (Zdigits2 m - 1) <= m < 2 ^ Zdigits2 m.
Proof.
  intros Hm. destruct m as [|p|p]; try lia. apply digits2_pos_bounds.
Qed.

Lemma Zdigits2_pos m : 0 < m -> 0 < Zdigits2 m.
Proof. intros Hm. destruct m; try lia. cbn. lia. Qed.

Lemma Zdigits2_le m j : 0 < m -> 0 <= j -> m < 2 ^ j -> Zdigits2 m <= j.
Proof.
  intros Hm Hj H. pose proof (Zdigits2_bounds m Hm) as [Hlo _].
  pose proof (Zdigits2_pos m Hm).
  destruct (Z_le_gt_dec (Zdigits2 m) j) as [|Hgt]; [assumption|exfalso].
  assert (2 ^ j <= 2 ^ (Zdigits2 m - 1)) by (apply Z.pow_le_mono_r; lia). lia.
Qed.

Lemma Zdigits2_ge m j : 0 < m -> 2 ^ (j - 1) <= m -> j <= Zdigits2 m.
Proof.
  intros Hm H. pose proof (Zdigits2_bounds m Hm) as [_ Hhi].
  pose proof (Zdigits2_pos m Hm).
  destruct (Z_le_gt_dec j (Zdigits2 m)) as [|Hgt]; [assumption|exfalso].
  assert (2 ^ Zdigits2 m <= 2 ^ (j - 1)) by (apply Z.pow_le_mono_r; lia). lia.
Qed.

Lemma pow2_pos k : 0 <= k -> 0 < 2 ^ k.
Proof. intros. apply Z.pow_pos_nonneg; lia. Qed.

Lemma binary_round_aux_spec s N D e :
  0 < D -> D <= N ->
  e <= fexp32 (Zdigits2 (N / D) + e) ->
  0 < rne N (D * 2 ^ (fexp32 (Zdigits2 (N / D) + e) - e)) ->
  fexp32 (Zdigits2 (N / D) + e) < 104 ->
  exists m3 e3,
    binary_round_aux F32.prec F32.emax s (N / D) e (mkloc D (N mod D)) = S754_finite s m3 e3
    /\ ((e3 = fexp32 (Zdigits2 (N / D) + e)
         /\ Z.pos m3 = rne N (D * 2 ^ (fexp32 (Zdigits2 (N / D) + e) - e))
         /\ rne N (D * 2 ^ (fexp32 (Zdigits2 (N / D) + e) - e)) < 2 ^ 24)
        \/ (e3 = fexp32 (Zdigits2 (N / D) + e) + 1
            /\ Z.pos m3 = 2 ^ 23
            /\ rne N (D * 2 ^ (fexp32 (Zdigits2 (N / D) + e) - e)) = 2 ^ 24)).
Proof.
  intros HD HN. 
  set (m := N / D). set (E := fexp32 (Zdigits2 m + e)).
  intros Hk. set (k := E - e). set (m2 := rne N (D * 2 ^ k)).
  intros Hm2 HE.
  assert (Hm : 0 < m).
  { unfold m. apply Z.div_str_pos. lia. }
  assert (Hk0 : 0 <= k) by (unfold k; lia).
  assert (H2k : 0 < 2 ^ k) by now apply pow2_pos.
  assert (HDk : 0 < D * 2 ^ k) by nia.
  pose proof (Zdigits2_bounds m Hm) as [Hdlo Hdhi].
  pose proof (Zdigits2_pos m Hm) as Hdpos.
  set (d := Zdigits2 m) in *.
  assert (HEeq : E = Z.max (d + e - 24) (-149)) by reflexivity.
  assert (Hm1 : N / (D * 2 ^ k) = m / 2 ^ k).
  { unfold m. rewrite Z.div_div by lia. reflexivity. }
  pose proof (rne_bounds N (D * 2 ^ k) HDk) as Hrb. fold m2 in Hrb. rewrite Hm1 in Hrb.
  (* the mantissa after the first rounding has at most 24 bits, or is 2^24 *)
  assert (Hm2hi : m2 <= 2 ^ 24 /\ (m2 = 2 ^ 24 -> E = d + e - 24)).
  { destruct (Z_le_gt_dec (-149) (d + e - 24)) as [Hn|Hs].
    - assert (k = d - 24) by lia.
      assert (m / 2 ^ k < 2 ^ 24).
      { apply Z.div_lt_upper_bound; [lia|]. rewrite <- Z.pow_add_r by lia.
        replace (k + 24) with d by lia. exact Hdhi. }
      split; lia.
    - assert (k = -149 - e) by lia.
      assert (m / 2 ^ k < 2 ^ 23).
      { apply Z.div_lt_upper_bound; [lia|]. rewrite <- Z.pow_add_r by lia.
        assert (2 ^ d <= 2 ^ (k + 23)) by (apply Z.pow_le_mono_r; lia). lia. }
      assert (2 ^ 23 < 2 ^ 24) by (apply Z.pow_lt_mono_r; lia).
      split; lia. }
  destruct Hm2hi as [Hm2hi Hcarry].
  unfold binary_round_aux.
  change (shr_fexp F32.prec F32.emax m e (mkloc D (N mod D)))
    with (shr (shr_record_of_loc m (mkloc D (N mod D))) e (fexp32 (Zdigits2 m + e) - e)).
  fold d. fold E. fold k.
  destruct (represents_shr N D e k ltac:(lia) HD Hk0) as (rec & Hshr & Hrep).
  fold m in Hshr. rewrite Hshr.
  rewrite (round_nearest_even_rne rec N (D * 2 ^ k) HDk Hrep). fold m2.
  replace (e + k) with E by (unfold k; lia).
  change (shr_fexp F32.prec F32.emax m2 E loc_Exact)
    with (shr (shr_record_of_loc m2 loc_Exact) E (fexp32 (Zdigits2 m2 + E) - E)).
  destruct (Z.eq_dec m2 (2 ^ 24)) as [Hc|Hc].
  - (* carry: renormalize by one bit *)
    specialize (Hcarry Hc). rewrite Hc.
    replace (fexp32 (Zdigits2 (2 ^ 24) + E) - E) with 1.
    2:{ rewrite fexp32_eq. change (Zdigits2 (2 ^ 24)) with 25. lia. }
    cbn [shr shr_record_of_loc SpecFloat.iter_pos].
    change (shr_1 {| shr_m := 2 ^ 24; shr_r := false; shr_s := false |})
      with {| shr_m := 2 ^ 23; shr_r := false; shr_s := false |}.
    cbn [shr_m]. change (2 ^ 23) with (Z.pos 8388608).
    replace (E + 1 <=? F32.emax - F32.prec) with true.
    2:{ symmetry. apply Z.leb_le. change (F32.emax - F32.prec) with 104. lia. }
    eexists _, _. split; [reflexivity|]. right. split; [reflexivity|]. split; reflexivity.
  - assert (Hlt : m2 < 2 ^ 24) by lia.
    assert (Hd2 : Zdigits2 m2 <= 24) by (apply Zdigits2_le; lia).
    assert (Hsh : fexp32 (Zdigits2 m2 + E) - E <= 0) by (rewrite fexp32_eq; lia).
    assert (Hshr2 : shr (shr_record_of_loc m2 loc_Exact) E (fexp32 (Zdigits2 m2 + E) - E)
                    = (shr_record_of_loc m2 loc_Exact, E)).
    { destruct (fexp32 (Zdigits2 m2 + E) - E); [reflexivity|lia|reflexivity]. }
    rewrite Hshr2. cbn [shr_record_of_loc shr_m].
    destruct m2 as [|p|p] eqn:Ep; try lia.
    replace (E <=? F32.emax - F32.prec) with true.
    2:{ symmetry. apply Z.leb_le. change (F32.emax - F32.prec) with 104. lia. }
    eexists _, _. split; [reflexivity|]. left. split; [reflexivity|]. split; [reflexivity|].
    fold k. fold m2. lia.
Qed.

(** exact input: the product of two mantissas *)
Lemma binary_round_aux_exact s N e :
  0 < N ->
  e <= fexp32 (Zdigits2 N + e) ->
  0 < rne N (2 ^ (fexp32 (Zdigits2 N + e) - e)) ->
  fexp32 (Zdigits2 N + e) < 104 ->
  exists m3 e3,
    binary_round_aux F32.prec F32.emax s N e loc_Exact = S754_finite s m3 e3
    /\ ((e3 = fexp32 (Zdigits2 N + e)
         /\ Z.pos m3 = rne N (2 ^ (fexp32 (Zdigits2 N + e) - e))
         /\ rne N (2 ^ (fexp32 (Zdigits2 N + e) - e)) < 2 ^ 24)
        \/ (e3 = fexp32 (Zdigits2 N + e) + 1
            /\ Z.pos m3 = 2 ^ 23
            /\ rne N (2 ^ (fexp32 (Zdigits2 N + e) - e)) = 2 ^ 24)).
Proof.
  intros HN Hk Hm HE.
  pose proof (binary_round_aux_spec s N 1 e ltac:(lia) ltac:(lia)) as H.
  rewrite Z.div_1_r, Z.mod_1_r, Z.mul_1_l in H. exact (H Hk Hm HE).
Qed.

Lemma truncate_rounded m3 e3 E m2 :
  E <= 0 ->
  (e3 = E /\ Z.pos m3 = m2 /\ m2 < 2 ^ 24)
  \/ (e3 = E + 1 /\ Z.pos m3 = 2 ^ 23 /\ m2 = 2 ^ 24) ->
  F32.truncate (S754_finite false m3 e3) = Some (m2 / 2 ^ (- E)).
Proof.
  intros HE [(-> & Hm & _)|(-> & Hm & ->)]; cbn [F32.truncate]; rewrite Hm; f_equal.
  - destruct (Z.leb_spec 0 E).
    + assert (E = 0) as -> by lia. change (- 0) with 0.
      now rewrite Z.pow_0_r, Z.div_1_r, Z.mul_1_r.
    + reflexivity.
  - destruct (Z.leb_spec 0 (E + 1)).
    + assert (E = 0 \/ E = -1) as [-> | ->] by lia; reflexivity.
    + replace (- E) with (1 + - (E + 1)) by lia.
      rewrite Z.pow_add_r by lia. rewrite <- Z.div_div by (try apply pow2_pos; lia).
      reflexivity.
Qed.

Lemma pos_iter_xO p q : Z.pos (Pos.iter xO p q) = Z.pos p * 2 ^ Z.pos q.
Proof.
  induction q as [|q IH] using Pos.peano_ind.
  - cbn [Pos.iter]. rewrite Pos2Z.inj_xO. lia.
  - rewrite Pos.iter_succ, Pos2Z.inj_xO, IH, Pos2Z.inj_succ, Z.pow_succ_r by lia. lia.
Qed.

(** the binary32 value of a small positive integer *)
Lemma of_Z_small n :
  0 < n < 2 ^ 24 ->
  exists m e, F32.of_Z n = S754_finite false m e
              /\ Z.pos m = n * 2 ^ (- e) /\ -23 <= e <= 0
              /\ 2 ^ 23 <= Z.pos m < 2 ^ 24.
Proof.
  intros [Hn0 Hn]. destruct n as [|p|p]; try lia.
  pose proof (digits2_pos_bounds p) as [Hlo Hhi].
  assert (Hd : Z.pos (digits2_pos p) <= 24).
  { apply (Zdigits2_le (Z.pos p)); lia. }
  set (d := Z.pos (digits2_pos p)) in *.
  assert (Hd0 : 0 < d) by (unfold d; lia).
  unfold F32.of_Z, binary_normalize, binary_round.
  change (fexp F32.prec F32.emax (Z.pos (digits2_pos p) + 0)) with (fexp32 (d + 0)).
  assert (Hf : fexp32 (d + 0) = d - 24) by (rewrite fexp32_eq; lia).
  rewrite Hf.
  assert (Hal : exists mz, shl_align p 0 (d - 24) = (mz, d - 24)
                           /\ Z.pos mz = Z.pos p * 2 ^ (24 - d)).
  { unfold shl_align. destruct (d - 24 - 0) as [|q|q] eqn:Eq; try lia.
    - exists p. replace (d - 24) with 0 by lia. split; [reflexivity|].
      replace (24 - d) with 0 by lia. lia.
    - exists (Pos.iter xO p q). split; [reflexivity|].
      rewrite pos_iter_xO. f_equal. f_equal. lia. }
  destruct Hal as (mz & -> & Hmz).
  assert (Hmzb : 2 ^ 23 <= Z.pos mz < 2 ^ 24).
  { rewrite Hmz. split.
    - replace 23 with ((d - 1) + (24 - d)) by lia. rewrite Z.pow_add_r by lia.
      apply Z.mul_le_mono_nonneg_r; [apply Z.lt_le_incl, pow2_pos; lia|exact Hlo].
    - replace 24 with (d + (24 - d)) at 2 by lia. rewrite Z.pow_add_r by lia.
      apply Z.mul_lt_mono_pos_r; [apply pow2_pos; lia|exact Hhi]. }
  assert (Hdz : Zdigits2 (Z.pos mz) = 24).
  { apply Z.le_antisymm; [apply Zdigits2_le; lia|apply Zdigits2_ge; lia]. }
  assert (HE : fexp32 (Zdigits2 (Z.pos mz) + (d - 24)) = d - 24).
  { rewrite Hdz, fexp32_eq. lia. }
  assert (Hrne : rne (Z.pos mz) 1 = Z.pos mz).
  { rewrite <- (Z.mul_1_r (Z.pos mz)) at 1. apply rne_exact. lia. }
  destruct (binary_round_aux_exact false (Z.pos mz) (d - 24)) as (m3 & e3 & Hr & Hc).
  - lia.
  - rewrite HE. lia.
  - rewrite HE, Z.sub_diag. change (2 ^ 0) with 1. rewrite Hrne. lia.
  - rewrite HE. lia.
  - rewrite HE, Z.sub_diag in Hc. change (2 ^ 0) with 1 in Hc.
    rewrite Hrne in Hc.
    rewrite Hr. destruct Hc as [(-> & Hm3 & _)|(_ & _ & Hbad)]; [|lia].
    exists m3, (d - 24). split; [reflexivity|].
    rewrite Hm3, Hmz. replace (- (d - 24)) with (24 - d) by lia. repeat split; lia.
Qed.

Lemma new_location_mkloc D r :
  0 < D -> 0 <= r < D -> new_location D r = mkloc D r.
Proof.
  intros HD Hr. unfold new_location, new_location_even, new_location_odd, mkloc.
  destruct (Z.even D) eqn:Ev; [reflexivity|].
  destruct (Z.eqb_spec r 0); [reflexivity|]. f_equal.
  assert (Hodd : Z.odd D = true) by (rewrite <- Z.negb_even, Ev; reflexivity).
  apply Z.odd_spec in Hodd. destruct Hodd as [c Hc].
  destruct (Z.compare_spec (2 * r + 1) D); destruct (Z.compare_spec (2 * r) D);
    try reflexivity; lia.
Qed.

Lemma div_eucl_div_mod a b : Z.div_eucl a b = (a / b, a mod b).
Proof. unfold Z.div, Z.modulo. now destruct (Z.div_eucl a b). Qed.

Lemma Zdigits2_24 m : 2 ^ 23 <= m < 2 ^ 24 -> Zdigits2 m = 24.
Proof.
  intros H. apply Z.le_antisymm; [apply Zdigits2_le; lia|apply Zdigits2_ge; lia].
Qed.

(** division of two normalized positive numbers *)
Lemma div_normal m1 e1 m2 e2 :
  2 ^ 23 <= Z.pos m1 < 2 ^ 24 -> 2 ^ 23 <= Z.pos m2 < 2 ^ 24 ->
  -100 <= e1 - e2 <= 100 ->
  let N := Z.pos m1 * 2 ^ 24 in
  let D := Z.pos m2 in
  let k := Zdigits2 (N / D) - 24 in
  let E := e1 - e2 - 24 + k in
  exists mq eq,
    F32.div (S754_finite false m1 e1) (S754_finite false m2 e2) = S754_finite false mq eq
    /\ 0 <= k <= 1
    /\ ((eq = E /\ Z.pos mq = rne N (D * 2 ^ k) /\ rne N (D * 2 ^ k) < 2 ^ 24)
        \/ (eq = E + 1 /\ Z.pos mq = 2 ^ 23 /\ rne N (D * 2 ^ k) = 2 ^ 24))
    /\ 2 ^ 23 <= rne N (D * 2 ^ k) <= 2 ^ 24.
Proof.
  intros H1 H2 He N D k E.
  assert (HD : 0 < D) by (unfold D; lia).
  assert (HN : D <= N) by (unfold N, D; lia).
  assert (Hqlo : 2 ^ 23 <= N / D).
  { apply Z.div_le_lower_bound; [lia|]. unfold N, D. nia. }
  assert (Hqhi : N / D < 2 ^ 25).
  { apply Z.div_lt_upper_bound; [lia|]. unfold N, D. nia. }
  assert (Hq0 : 0 < N / D) by lia.
  assert (Hk : 0 <= k <= 1).
  { unfold k. split.
    - assert (24 <= Zdigits2 (N / D)) by (apply Zdigits2_ge; [lia|exact Hqlo]). lia.
    - assert (Zdigits2 (N / D) <= 25) by (apply Zdigits2_le; lia). lia. }
  assert (HEf : fexp32 (Zdigits2 (N / D) + (e1 - e2 - 24)) = E).
  { rewrite fexp32_eq. unfold E, k. lia. }
  assert (Hkk : E - (e1 - e2 - 24) = k) by (unfold E; lia).
  assert (H2k : 0 < 2 ^ k) by (apply pow2_pos; lia).
  pose proof (Zdigits2_bounds (N / D) Hq0) as [Hdlo Hdhi].
  assert (Hm1lo : 2 ^ 23 <= N / D / 2 ^ k).
  { apply Z.div_le_lower_bound; [lia|]. rewrite <- Z.pow_add_r by lia.
    replace (k + 23) with (Zdigits2 (N / D) - 1) by (unfold k; lia). exact Hdlo. }
  assert (Hm1hi : N / D / 2 ^ k < 2 ^ 24).
  { apply Z.div_lt_upper_bound; [lia|]. rewrite <- Z.pow_add_r by lia.
    replace (k + 24) with (Zdigits2 (N / D)) by (unfold k; lia). exact Hdhi. }
  pose proof (rne_bounds N (D * 2 ^ k) ltac:(nia)) as Hrb.
  rewrite <- Z.div_div in Hrb by lia.
  assert (Hcore : SFdiv_core_binary F32.prec F32.emax (Z.pos m1) e1 (Z.pos m2) e2
                  = (N / D, e1 - e2 - 24, mkloc D (N mod D))).
  { unfold SFdiv_core_binary.
    rewrite (Zdigits2_24 (Z.pos m1) H1), (Zdigits2_24 (Z.pos m2) H2).
    change (fexp F32.prec F32.emax (24 + e1 - (24 + e2))) with (fexp32 (24 + e1 - (24 + e2))).
    replace (Z.min (fexp32 (24 + e1 - (24 + e2))) (e1 - e2)) with (e1 - e2 - 24)
      by (rewrite fexp32_eq; lia).
    replace (e1 - e2 - (e1 - e2 - 24)) with 24 by lia.
    cbv zeta. cbv iota beta.
    rewrite Z.shiftl_mul_pow2 by lia. fold N. fold D.
    rewrite div_eucl_div_mod.
    rewrite new_location_mkloc; [reflexivity|lia|]. apply Z.mod_pos_bound. lia. }
  destruct (binary_round_aux_spec false N D (e1 - e2 - 24) HD HN) as (mq & eq & Hr & Hc).
  - rewrite HEf. lia.
  - rewrite HEf, Hkk. lia.
  - rewrite HEf. unfold E. lia.
  - rewrite HEf, Hkk in Hc.
    exists mq, eq. split; [|split; [exact Hk|split; [exact Hc|lia]]].
    unfold F32.div, SFdiv. rewrite Hcore. exact Hr.
Qed.

(** the scale factor [max_dim / long_dim] *)
Lemma scale_spec M l :
  0 < M < 2 ^ 23 -> 0 < l < 2 ^ 24 ->
  exists mq eq,
    F32.div (F32.of_Z M) (F32.of_Z l) = S754_finite false mq eq
    /\ 2 ^ 23 <= Z.pos mq < 2 ^ 24
    /\ -48 <= eq <= 0
    /\ 2 * Z.abs (l * Z.pos mq - M * 2 ^ (- eq)) <= 2 ^ (- eq).
Proof.
  intros HM Hl.
  destruct (of_Z_small M ltac:(lia)) as (mM & eM & -> & HmM & HeM & HbM).
  destruct (of_Z_small l Hl) as (ml & el & -> & Hml & Hel & Hbl).
  assert (HeM1 : eM <= -1).
  { destruct (Z.eq_dec eM 0) as [->|]; [|lia]. change (2 ^ (- 0)) with 1 in HmM. lia. }
  destruct (div_normal mM eM ml el HbM Hbl ltac:(lia)) as (mq & eq & Hdiv & Hk & Hc & Hx).
  set (N := Z.pos mM * 2 ^ 24) in *. set (D := Z.pos ml) in *.
  set (k := Zdigits2 (N / D) - 24) in *. set (E := eM - el - 24 + k) in *.
  set (X := rne N (D * 2 ^ k)) in *.
  set (a := 2 ^ (- el)) in *. set (b := 2 ^ (- eM)) in *. set (K := 2 ^ k) in *.
  set (S := 2 ^ (- E)).
  assert (Ha : 0 < a) by (apply pow2_pos; lia).
  assert (HK : 0 < K) by (apply pow2_pos; lia).
  assert (HK2 : K <= 2).
  { unfold K. assert (2 ^ k <= 2 ^ 1) by (apply Z.pow_le_mono_r; lia). lia. }
  assert (Hb2 : 2 <= b).
  { unfold b. assert (2 ^ 1 <= 2 ^ (- eM)) by (apply Z.pow_le_mono_r; lia). lia. }
  assert (HS : 0 < S) by (apply pow2_pos; unfold E; lia).
  assert (Hpow : b * 2 ^ 24 = S * (K * a)).
  { unfold b, S, K, a. rewrite <- !Z.pow_add_r by (unfold E; lia). f_equal. unfold E. lia. }
  assert (HD0 : 0 < D) by (unfold D; lia).
  assert (HDK : 0 < D * K) by (apply Z.mul_pos_pos; assumption).
  assert (HKa : 0 < K * a) by (apply Z.mul_pos_pos; assumption).
  pose proof (rne_error N (D * K) HDK) as Herr. fold X in Herr.
  assert (HN : N = M * (S * (K * a))).
  { unfold N. rewrite HmM, <- Hpow. ring. }
  assert (HD : D * K = l * (K * a)) by (rewrite Hml; ring).
  assert (Hfac : X * (D * K) - N = (K * a) * (X * l - M * S)) by (rewrite HD, HN; ring).
  rewrite Hfac, Z.abs_mul, (Z.abs_eq (K * a)) in Herr by lia.
  rewrite HD in Herr.
  assert (Herr' : 2 * Z.abs (X * l - M * S) <= l).
  { apply (Z.mul_le_mono_pos_l _ _ (K * a) HKa).
    replace (K * a * (2 * Z.abs (X * l - M * S)))
      with (2 * (K * a * Z.abs (X * l - M * S))) by ring.
    replace (K * a * l) with (l * (K * a)) by ring. exact Herr. }
  assert (HlS : l < S).
  { apply (Z.mul_lt_mono_pos_r (K * a)); [exact HKa|].
    rewrite <- Hpow.
    assert (H1 : l * (K * a) <= 2 * (l * a)).
    { replace (l * (K * a)) with (K * (l * a)) by ring.
      apply Z.mul_le_mono_nonneg_r; [|lia]. apply Z.mul_nonneg_nonneg; lia. }
    assert (H2 : l * a < 2 ^ 24) by lia.
    assert (H3 : 2 * 2 ^ 24 <= b * 2 ^ 24).
    { apply Z.mul_le_mono_nonneg_r; [|exact Hb2]. apply Z.lt_le_incl, pow2_pos. lia. }
    lia. }
  exists mq, eq. split; [exact Hdiv|].
  destruct Hc as [(-> & Hmq & Hlt)|(-> & Hmq & HX)].
  - fold S. rewrite Hmq. split; [lia|]. split; [unfold E; lia|].
    replace (l * X) with (X * l) by ring. lia.
  - split; [rewrite Hmq; lia|]. split; [unfold E; lia|].
    assert (HS2 : S = 2 * 2 ^ (- (E + 1))).
    { unfold S. rewrite <- Z.pow_succ_r by (unfold E; lia). f_equal. lia. }
    rewrite Hmq. rewrite HX in Herr'.
    set (S' := 2 ^ (- (E + 1))) in *.
    change (2 ^ 24) with (2 * 2 ^ 23) in Herr'. lia.
Qed.

(** one side of the new shape: [int(dim * scale)] *)
Lemma mul_trunc d mq eq M :
  0 < d < 2 ^ 24 -> 2 ^ 23 <= Z.pos mq < 2 ^ 24 -> -48 <= eq <= 0 ->
  0 < M < 2 ^ 23 ->
  2 * (d * Z.pos mq) <= (2 * M + 1) * 2 ^ (- eq) ->
  exists z,
    F32.truncate (F32.mul (F32.of_Z d) (S754_finite false mq eq)) = Some z
    /\ 0 <= z <= M
    /\ ((2 * M - 1) * 2 ^ (- eq) <= 2 * (d * Z.pos mq) -> M - 1 <= z).
Proof.
  intros Hd Hmq Heq HM Hup.
  destruct (of_Z_small d Hd) as (md & ed & -> & Hmd & Hed & Hbd).
  set (a := 2 ^ (- ed)) in *. set (b := 2 ^ (- eq)) in *.
  assert (Ha : 0 < a) by (apply pow2_pos; lia).
  assert (Hb : 0 < b) by (apply pow2_pos; lia).
  set (e0 := ed + eq).
  set (Np := Z.pos md * Z.pos mq).
  assert (HNplo : 2 ^ 46 <= Np).
  { unfold Np. change (2 ^ 46) with (2 ^ 23 * 2 ^ 23).
    apply Z.mul_le_mono_nonneg; lia. }
  assert (HNphi : Np < 2 ^ 48).
  { unfold Np. change (2 ^ 48) with (2 ^ 24 * 2 ^ 24).
    apply Z.mul_lt_mono_nonneg; lia. }
  assert (Hab : a * b = 2 ^ (- e0)).
  { unfold a, b, e0. rewrite <- Z.pow_add_r by lia. f_equal. lia. }
  assert (Hup' : 2 * Np <= (2 * M + 1) * 2 ^ (- e0)).
  { rewrite <- Hab. unfold Np. rewrite Hmd.
    replace (2 * (d * a * Z.pos mq)) with (a * (2 * (d * Z.pos mq))) by ring.
    replace ((2 * M + 1) * (a * b)) with (a * ((2 * M + 1) * b)) by ring.
    apply Z.mul_le_mono_nonneg_l; lia. }
  assert (He0 : e0 <= -24).
  { destruct (Z_le_gt_dec e0 (-24)) as [|Hgt]; [assumption|exfalso].
    assert (Hp : 2 ^ (- e0) <= 2 ^ 23) by (apply Z.pow_le_mono_r; lia).
    assert (Hq : (2 * M + 1) * 2 ^ (- e0) <= (2 * M + 1) * 2 ^ 23)
      by (apply Z.mul_le_mono_nonneg_l; lia).
    change (2 ^ 46) with 70368744177664 in HNplo.
    change (2 ^ 23) with 8388608 in *. lia. }
  assert (Hd47 : 47 <= Zdigits2 Np) by (apply Zdigits2_ge; [lia|exact HNplo]).
  assert (Hd48 : Zdigits2 Np <= 48) by (apply Zdigits2_le; lia).
  pose proof (Zdigits2_bounds Np ltac:(lia)) as [Hdlo Hdhi].
  set (dN := Zdigits2 Np) in *.
  assert (HEf : fexp32 (dN + e0) = dN + e0 - 24).
  { rewrite fexp32_eq. unfold e0. lia. }
  set (Ep := dN + e0 - 24) in *.
  assert (Hkk : Ep - e0 = dN - 24) by (unfold Ep; lia).
  set (k := dN - 24) in *.
  assert (H2k : 0 < 2 ^ k) by (apply pow2_pos; unfold k; lia).
  assert (Hhalf : 2 ^ (- e0) = 2 * 2 ^ (- e0 - 1)).
  { rewrite <- Z.pow_succ_r by lia. f_equal. lia. }
  assert (HEp : Ep <= -1).
  { assert (Np < 2 ^ (23 - e0)).
    { replace (23 - e0) with (24 + (- e0 - 1)) by lia. rewrite Z.pow_add_r by lia.
      assert (2 * M + 1 < 2 ^ 24) by (change (2 ^ 24) with (2 * 2 ^ 23); lia).
      assert (HP : 0 < 2 ^ (- e0 - 1)) by (apply pow2_pos; lia).
      rewrite Hhalf in Hup'.
      assert (Hle : Np <= (2 * M + 1) * 2 ^ (- e0 - 1)) by lia.
      assert (Hlt : (2 * M + 1) * 2 ^ (- e0 - 1) < 2 ^ 24 * 2 ^ (- e0 - 1))
        by (apply Z.mul_lt_mono_pos_r; lia).
      lia. }
    assert (dN <= 23 - e0) by (apply Zdigits2_le; lia). unfold Ep. lia. }
  set (U := 2 ^ (- Ep - 1)).
  assert (HU : 0 < U) by (apply pow2_pos; lia).
  assert (HU2 : 2 ^ (- Ep) = 2 * U).
  { unfold U. rewrite <- Z.pow_succ_r by lia. f_equal. lia. }
  assert (HUk : U * 2 ^ k = 2 ^ (- e0 - 1)).
  { unfold U. rewrite <- Z.pow_add_r by (unfold k; lia). f_equal. unfold Ep, k. lia. }
  set (X := rne Np (2 ^ k)).
  assert (HXlo : 2 ^ 23 <= X).
  { apply rne_ge; [lia|]. rewrite <- Z.pow_add_r by (unfold k; lia).
    replace (23 + k) with (dN - 1) by (unfold k; lia). exact Hdlo. }
  assert (HXup : X <= (2 * M + 1) * U).
  { apply rne_le; [lia|]. rewrite <- Z.mul_assoc, HUk. lia. }
  destruct (binary_round_aux_exact false Np e0) as (m3 & e3 & Hr & Hc).
  - lia.
  - fold dN. rewrite HEf. lia.
  - fold dN. rewrite HEf, Hkk. fold X. lia.
  - fold dN. rewrite HEf. lia.
  - fold dN in Hc. rewrite HEf, Hkk in Hc. fold X in Hc.
    exists (X / 2 ^ (- Ep)). split; [|split].
    + unfold F32.mul, SFmul. cbn [xorb]. rewrite Pos2Z.inj_mul. fold Np. fold e0.
      rewrite Hr. apply truncate_rounded; [lia|exact Hc].
    + rewrite HU2. split.
      * apply Z.div_pos; lia.
      * assert (X / (2 * U) < M + 1); [|lia].
        apply Z.div_lt_upper_bound; [lia|].
        replace (2 * U * (M + 1)) with ((2 * M + 1) * U + U) by ring. lia.
    + intros Hlow. rewrite HU2. apply Z.div_le_lower_bound; [lia|].
      assert (HXge : (2 * M - 1) * U <= X);
        [|replace (2 * U * (M - 1)) with ((2 * M - 1) * U - U) by ring; lia].
      apply rne_ge; [lia|]. rewrite <- Z.mul_assoc, HUk.
      assert ((2 * M - 1) * 2 ^ (- e0) <= 2 * Np); [|lia].
      rewrite <- Hab. unfold Np. rewrite Hmd. fold a.
      replace (2 * (d * a * Z.pos mq)) with (a * (2 * (d * Z.pos mq))) by ring.
      replace ((2 * M - 1) * (a * b)) with (a * ((2 * M - 1) * b)) by ring.
      apply Z.mul_le_mono_nonneg_l; lia.
Qed.

Lemma to_int32_of_truncate x z :
  F32.truncate x = Some z -> F32.INT32_MIN <= z <= F32.INT32_MAX -> F32.to_int32 x = z.
Proof.
  intros Ht Hz. unfold F32.to_int32. rewrite Ht.
  destruct (Z.leb_spec F32.INT32_MIN z); destruct (Z.leb_spec z F32.INT32_MAX);
    cbn [andb]; lia.
Qed.

(** the exact product [d * q] against the proportional value [c = d * M / l] *)
Lemma scaled_bounds l d M c b q :
  0 < l -> 0 < d <= l -> 0 <= b -> 0 <= M ->
  c * l <= d * M < (c + 1) * l ->
  2 * (l * q) <= 2 * M * b + b -> 2 * M * b - b <= 2 * (l * q) ->
  (2 * c - 1) * b <= 2 * (d * q) <= (2 * (c + 1) + 1) * b.
Proof.
  intros Hl Hd Hb HM Hc Hq1 Hq2.
  assert (A1 : c * l * b <= d * M * b) by (apply Z.mul_le_mono_nonneg_r; lia).
  assert (B1 : d * M * b <= (c + 1) * l * b) by (apply Z.mul_le_mono_nonneg_r; lia).
  assert (A2 : d * (2 * M * b - b) <= d * (2 * (l * q)))
    by (apply Z.mul_le_mono_nonneg_l; lia).
  assert (B2 : d * (2 * (l * q)) <= d * (2 * M * b + b))
    by (apply Z.mul_le_mono_nonneg_l; lia).
  assert (A3 : d * b <= l * b) by (apply Z.mul_le_mono_nonneg_r; lia).
  split.
  - apply (Z.mul_le_mono_pos_l _ _ l Hl). lia.
  - apply (Z.mul_le_mono_pos_l _ _ l Hl). lia.
Qed.

(** each side of the requested size is within one of the proportional value *)
Lemma side_spec M l d :
  0 < M < 2 ^ 23 -> 0 < l < 2 ^ 24 -> 0 < d <= l ->
  exists z,
    F32.to_int32 (F32.mul (F32.of_Z d) (F32.div (F32.of_Z M) (F32.of_Z l))) = z
    /\ 0 <= z <= M
    /\ d * M / l - 1 <= z <= d * M / l + 1.
Proof.
  intros HM Hl Hd.
  destruct (scale_spec M l HM Hl) as (mq & eq & -> & Hmq & Heq & Herr).
  set (b := 2 ^ (- eq)) in *.
  assert (Hb : 0 < b) by (apply pow2_pos; lia).
  set (c := d * M / l).
  assert (Hc : c * l <= d * M < (c + 1) * l).
  { unfold c. pose proof (Z.div_mod (d * M) l ltac:(lia)) as Hdm.
    pose proof (Z.mod_pos_bound (d * M) l ltac:(lia)) as Hmb.
    set (q := d * M / l) in *. set (r := (d * M) mod l) in *.
    replace ((q + 1) * l) with (l * q + l) by ring.
    replace (q * l) with (l * q) by ring. lia. }
  assert (Hc0 : 0 <= c).
  { unfold c. apply Z.div_pos; [apply Z.mul_nonneg_nonneg; lia|lia]. }
  assert (HcM : c <= M).
  { unfold c. apply Z.div_le_upper_bound; [lia|].
    apply Z.mul_le_mono_nonneg_r; lia. }
  assert (Hq1 : 2 * (l * Z.pos mq) <= 2 * M * b + b) by lia.
  assert (Hq2 : 2 * M * b - b <= 2 * (l * Z.pos mq)) by lia.
  pose proof (scaled_bounds l d M c b (Z.pos mq) ltac:(lia) Hd ltac:(lia) ltac:(lia)
                            Hc Hq1 Hq2) as [Hlow Hup1].
  (* against max_dim itself *)
  assert (HupM : 2 * (d * Z.pos mq) <= (2 * M + 1) * b).
  { assert (d * Z.pos mq <= l * Z.pos mq) by (apply Z.mul_le_mono_nonneg_r; lia).
    lia. }
  destruct (mul_trunc d mq eq M ltac:(lia) Hmq Heq HM HupM) as (z & Hz & HzM & _).
  exists z. split; [|split; [exact HzM|split]].
  - apply to_int32_of_truncate; [exact Hz|].
    unfold F32.INT32_MIN, F32.INT32_MAX.
    assert (2 ^ 23 < 2 ^ 31 - 1) by reflexivity. lia.
  - (* lower bound *)
    destruct (Z.eq_dec c 0) as [Hc00|Hne]; [lia|].
    destruct (Z_le_gt_dec (2 * (d * Z.pos mq)) ((2 * c + 1) * b)) as [Hup|Hup].
    + destruct (mul_trunc d mq eq c ltac:(lia) Hmq Heq ltac:(lia) Hup) as (z' & Hz' & _ & Hlo).
      rewrite Hz in Hz'. injection Hz' as <-. specialize (Hlo Hlow). lia.
    + (* the product is above c + 1/2 *)
      destruct (Z.eq_dec c M) as [HcMeq|HneM]; [rewrite HcMeq in Hup; lia|].
      destruct (mul_trunc d mq eq (c + 1) ltac:(lia) Hmq Heq ltac:(lia) Hup1)
        as (z' & Hz' & _ & Hlo).
      rewrite Hz in Hz'. injection Hz' as <-.
      assert (c + 1 - 1 <= z).
      { apply Hlo. replace (2 * (c + 1) - 1) with (2 * c + 1) by ring. lia. }
      lia.
  - (* upper bound *)
    destruct (Z.eq_dec c M) as [HcMeq|HneM]; [lia|].
    destruct (mul_trunc d mq eq (c + 1) ltac:(lia) Hmq Heq ltac:(lia) Hup1)
      as (z' & Hz' & Hzc & _).
    rewrite Hz in Hz'. injection Hz' as <-. lia.
Qed.

Lemma longer_side_spec M l :
  0 < M < 2 ^ 23 -> 0 < l < 2 ^ 24 ->
  M - 1 <= F32.to_int32 (F32.mul (F32.of_Z l) (F32.div (F32.of_Z M) (F32.of_Z l))) <= M.
Proof.
  intros HM Hl. destruct (side_spec M l l HM Hl ltac:(lia)) as (z & -> & Hz & Hc).
  rewrite Z.mul_comm, Z.div_mul in Hc by lia. lia.
Qed.

Lemma ltb_of_Z h w :
  0 < h < 2 ^ 24 -> 0 < w < 2 ^ 24 ->
  F32.ltb (F32.of_Z h) (F32.of_Z w) = (h <? w).
Proof.
  intros Hh Hw.
  destruct (of_Z_small h Hh) as (mh & eh & -> & Hmh & Heh & Hbh).
  destruct (of_Z_small w Hw) as (mw & ew & -> & Hmw & Hew & Hbw).
  unfold F32.ltb, SFltb, SFcompare.
  destruct (Z.compare_spec eh ew) as [E|E|E].
  - subst ew. rewrite Pos.compare_cont_spec. cbn [Pos.switch_Eq].
    assert (0 < 2 ^ (- eh)) by (apply pow2_pos; lia).
    destruct (Pos.compare_spec mh mw) as [C|C|C]; symmetry.
    + apply Z.ltb_ge. assert (Z.pos mh = Z.pos mw) by congruence. nia.
    + apply Z.ltb_lt. assert (Z.pos mh < Z.pos mw) by lia. nia.
    + apply Z.ltb_ge. assert (Z.pos mw < Z.pos mh) by lia. nia.
  - symmetry. apply Z.ltb_lt.
    assert (2 * 2 ^ (- ew) <= 2 ^ (- eh)).
    { rewrite <- Z.pow_succ_r by lia. apply Z.pow_le_mono_r; lia. }
    assert (0 < 2 ^ (- ew)) by (apply pow2_pos; lia).
    change (2 ^ 24) with (2 * 2 ^ 23) in *. nia.
  - symmetry. apply Z.ltb_ge.
    assert (2 * 2 ^ (- eh) <= 2 ^ (- ew)).
    { rewrite <- Z.pow_succ_r by lia. apply Z.pow_le_mono_r; lia. }
    assert (0 < 2 ^ (- eh)) by (apply pow2_pos; lia).
    change (2 ^ 24) with (2 * 2 ^ 23) in *. nia.
Qed.

Lemma reduce_max_pair h w :
  0 < h < 2 ^ 24 -> 0 < w < 2 ^ 24 ->
  Stylize.reduce_max [F32.of_Z h; F32.of_Z w] = F32.of_Z (Z.max h w).
Proof.
  intros Hh Hw. unfold Stylize.reduce_max. cbn [fold_right].
  assert (Hinf : F32.fmax (F32.of_Z w) (S754_infinity true) = F32.of_Z w).
  { destruct (of_Z_small w Hw) as (mw & ew & -> & _). reflexivity. }
  rewrite Hinf. unfold F32.fmax. rewrite ltb_of_Z by assumption.
  destruct (Z.ltb_spec h w); f_equal; lia.
Qed.

Lemma new_shape_pair M h w :
  0 < h < 2 ^ 24 -> 0 < w < 2 ^ 24 ->
  Stylize.new_shape M [h; w] =
  [ F32.to_int32 (F32.mul (F32.of_Z h) (F32.div (F32.of_Z M) (F32.of_Z (Z.max h w))));
    F32.to_int32 (F32.mul (F32.of_Z w) (F32.div (F32.of_Z M) (F32.of_Z (Z.max h w)))) ].
Proof.
  intros Hh Hw. unfold Stylize.new_shape, Stylize.new_shape_of, Stylize.scale_of.
  cbn [map]. rewrite reduce_max_pair by assumption. reflexivity.
Qed.


Lemma In_Zrange lo n x : lo <= x < lo + Z.of_nat n -> In x (Zrange lo n).
Proof.
  intros H. unfold Zrange. apply in_map_iff. exists (Z.to_nat (x - lo)).
  split; [lia|]. apply in_seq. lia.
Qed.

Lemma gap_table_ok :
  forallb (fun s => forallb (gap_check s) (Zrange 1 256)) (Zrange 23 10) = true.
Proof. vm_compute. reflexivity. Qed.

Lemma gap_check_ok s n1 : 23 <= s <= 32 -> 1 <= n1 <= 256 -> gap_check s n1 = true.
Proof.
  intros Hs Hn. pose proof gap_table_ok as H.
  rewrite forallb_forall in H. specialize (H s (In_Zrange 23 10 s ltac:(lia))).
  rewrite forallb_forall in H. apply H. apply In_Zrange. lia.
Qed.

Lemma of_Z_255 : F32.of_Z 255 = S754_finite false 16711680 (-16).
Proof. reflexivity. Qed.

Lemma one_eq : F32.one = S754_finite false 8388608 (-23).
Proof. reflexivity. Qed.

Lemma in_unit_finite s m e :
  F32.in_unit (S754_finite s m e) = true ->
  s = false /\ (e < -23 \/ (e = -23 /\ Z.pos m <= 2 ^ 23)).
Proof.
  unfold F32.in_unit. rewrite andb_true_iff. intros [H0 H1].
  destruct s; [discriminate H0|]. split; [reflexivity|].
  rewrite one_eq in H1. unfold F32.leb, SFleb, SFcompare in H1.
  destruct (Z.compare_spec e (-23)) as [E|E|E]; [|lia|discriminate H1].
  right. split; [exact E|].
  rewrite Pos.compare_cont_spec in H1. cbn [Pos.switch_Eq] in H1.
  destruct (Pos.compare_spec m 8388608) as [C|C|C]; try discriminate H1.
  - rewrite C. reflexivity.
  - change (2 ^ 23) with (Z.pos 8388608). apply Z.lt_le_incl, Pos2Z.pos_lt_pos, C.
Qed.

Lemma valid_finite s m e :
  F32.valid (S754_finite s m e) = true ->
  fexp32 (Zdigits2 (Z.pos m) + e) = e /\ e <= 104.
Proof.
  unfold F32.valid, valid_binary, bounded, canonical_mantissa.
  rewrite andb_true_iff. intros [H1 H2].
  apply Z.eqb_eq in H1. apply Z.leb_le in H2. split; [exact H1|exact H2].
Qed.

(** the byte written for a pixel value of the unit interval *)
Lemma byte_of_unit m e :
  F32.valid (S754_finite false m e) = true ->
  e < -23 \/ (e = -23 /\ Z.pos m <= 2 ^ 23) ->
  F32.truncate (F32.mul (S754_finite false m e) (F32.of_Z 255))
  = Some (255 * Z.pos m / 2 ^ (- e))
  /\ 0 <= 255 * Z.pos m / 2 ^ (- e) <= 255.
Proof.
  intros Hv Hu. apply valid_finite in Hv. destruct Hv as [Hcan He104].
  rewrite fexp32_eq in Hcan.
  pose proof (Zdigits2_bounds (Z.pos m) ltac:(lia)) as [Hdlo Hdhi].
  pose proof (Zdigits2_pos (Z.pos m) ltac:(lia)) as Hdpos.
  set (dv := Zdigits2 (Z.pos m)) in *.
  set (s := - e).
  assert (Hs : 23 <= s <= 149) by (unfold s; lia).
  assert (H2s : 0 < 2 ^ s) by (apply pow2_pos; lia).
  assert (Hm24 : Z.pos m < 2 ^ 24).
  { assert (2 ^ dv <= 2 ^ 24) by (apply Z.pow_le_mono_r; lia). lia. }
  assert (Hms : Z.pos m <= 2 ^ s).
  { destruct Hu as [Hu|[Hu Hu']].
    - assert (2 ^ 24 <= 2 ^ s) by (apply Z.pow_le_mono_r; unfold s; lia). lia.
    - unfold s. rewrite Hu. exact Hu'. }
  set (P := 255 * Z.pos m).
  set (n := P / 2 ^ s).
  assert (Hn : n * 2 ^ s <= P < (n + 1) * 2 ^ s).
  { unfold n. pose proof (Z.div_mod P (2 ^ s) ltac:(lia)).
    pose proof (Z.mod_pos_bound P (2 ^ s) H2s). nia. }
  assert (Hn0 : 0 <= n) by (unfold n; apply Z.div_pos; unfold P; lia).
  assert (Hn255 : n <= 255) by (unfold P in Hn; nia).
  split; [|fold s; fold P; fold n; lia].
  rewrite of_Z_255. unfold F32.mul, SFmul. cbn [xorb].
  rewrite Pos2Z.inj_mul.
  set (N := Z.pos m * Z.pos 16711680).
  assert (HN : N = P * 2 ^ 16) by (unfold N, P; change (2 ^ 16) with 65536; lia).
  set (e0 := e + -16).
  assert (HNlo : 2 ^ 23 <= N) by (rewrite HN; unfold P; change (2 ^ 23) with (128 * 2 ^ 16); lia).
  assert (HNhi : N < 2 ^ (s + 24)).
  { rewrite HN. replace (s + 24) with (8 + s + 16) by lia.
    rewrite !Z.pow_add_r by lia. change (2 ^ 8) with 256. unfold P.
    assert (0 < 2 ^ 16) by reflexivity. nia. }
  pose proof (Zdigits2_bounds N ltac:(lia)) as [HdNlo HdNhi].
  assert (HdN24 : 24 <= Zdigits2 N) by (apply Zdigits2_ge; [lia|exact HNlo]).
  assert (HdNs : Zdigits2 N <= s + 24) by (apply Zdigits2_le; lia).
  set (dN := Zdigits2 N) in *.
  set (Ep := fexp32 (dN + e0)).
  assert (HEp : Ep = Z.max (dN + e0 - 24) (-149)) by reflexivity.
  assert (HEp16 : Ep <= -16) by (unfold e0, s in *; lia).
  set (k := Ep - e0).
  assert (Hk0 : 0 <= k) by (unfold k, e0 in *; lia).
  assert (H2k : 0 < 2 ^ k) by (apply pow2_pos; lia).
  assert (H2kN : 2 ^ k <= N).
  { destruct (Z_le_gt_dec (-149) (dN + e0 - 24)).
    - assert (k = dN - 24) by (unfold k; lia).
      assert (2 ^ k <= 2 ^ (dN - 1)) by (apply Z.pow_le_mono_r; lia). lia.
    - assert (k <= 16) by (unfold k, e0, s in *; lia).
      assert (2 ^ k <= 2 ^ 23) by (apply Z.pow_le_mono_r; lia). lia. }
  set (U := 2 ^ (- Ep)).
  assert (HU : 0 < U) by (apply pow2_pos; lia).
  assert (HUk : U * 2 ^ k = 2 ^ s * 2 ^ 16).
  { unfold U. rewrite <- !Z.pow_add_r by lia. f_equal. unfold k, e0, s. lia. }
  set (X := rne N (2 ^ k)).
  assert (HXlo : n * U <= X).
  { apply rne_ge; [lia|]. rewrite <- Z.mul_assoc, HUk, HN. nia. }
  assert (HXpos : 0 < X).
  { assert (1 <= X); [|lia]. apply rne_ge; lia. }
  assert (HXup : X <= (n + 1) * U).
  { apply rne_le; [lia|]. rewrite <- Z.mul_assoc, HUk, HN. nia. }
  assert (HXne : X <> (n + 1) * U).
  { intros HX. pose proof (rne_error N (2 ^ k) H2k) as Herr. fold X in Herr.
    rewrite HX, <- Z.mul_assoc, HUk, HN in Herr.
    set (delta := (n + 1) * 2 ^ s - P).
    assert (Hd1 : 1 <= delta) by (unfold delta; lia).
    assert (Herr' : delta * 2 ^ 17 <= 2 ^ k).
    { change (2 ^ 17) with (2 * 2 ^ 16). unfold delta.
      assert (0 < 2 ^ 16) by reflexivity. lia. }
    destruct (Z_le_gt_dec (-149) (dN + e0 - 24)) as [Hnorm|Hsub].
    - assert (Hk : k = dN - 24) by (unfold k; lia).
      assert (Hd41 : delta * 2 ^ 41 <= 2 ^ dN).
      { replace dN with (k + 24) by lia. rewrite Z.pow_add_r by lia.
        change (2 ^ 41) with (2 ^ 17 * 2 ^ 24). assert (0 < 2 ^ 24) by reflexivity. nia. }
      assert (HP32 : P < 255 * 2 ^ 24) by (unfold P; lia).
      assert (HdN48 : dN <= 48).
      { apply Zdigits2_le; [lia|lia|]. rewrite HN.
        change (2 ^ 48) with (2 ^ 32 * 2 ^ 16). assert (255 * 2 ^ 24 < 2 ^ 32) by reflexivity.
        assert (0 < 2 ^ 16) by reflexivity. nia. }
      assert (Hd128 : delta <= 128).
      { assert (2 ^ dN <= 2 ^ 48) by (apply Z.pow_le_mono_r; lia).
        change (2 ^ 48) with (128 * 2 ^ 41) in *. assert (0 < 2 ^ 41) by reflexivity. nia. }
      assert (Hs32 : s <= 32).
      { destruct (Z_le_gt_dec s 32); [assumption|exfalso].
        assert (2 ^ 33 <= 2 ^ s) by (apply Z.pow_le_mono_r; lia).
        assert (255 * 2 ^ 24 + 128 < 2 ^ 33) by reflexivity. unfold delta in Hd128. nia. }
      pose proof (gap_check_ok s (n + 1) ltac:(lia) ltac:(lia)) as Hchk.
      unfold gap_check in Hchk.
      assert (Hmod : ((n + 1) * 2 ^ s) mod 255 = delta).
      { symmetry. apply Z.mod_unique with (q := Z.pos m); [lia|]. unfold delta, P. lia. }
      rewrite Hmod in Hchk.
      replace ((n + 1) * 2 ^ s - delta) with P in Hchk by (unfold delta; lia).
      rewrite <- HN in Hchk. fold dN in Hchk.
      rewrite !orb_true_iff in Hchk. destruct Hchk as [[[Hc|Hc]|Hc]|Hc].
      + apply Z.eqb_eq in Hc. lia.
      + apply Z.ltb_lt in Hc. lia.
      + apply negb_true_iff, Z.ltb_ge in Hc. lia.
      + apply Z.ltb_lt in Hc. lia.
    - assert (k <= 16) by (unfold k, e0, s in *; lia).
      assert (2 ^ k <= 2 ^ 16) by (apply Z.pow_le_mono_r; lia).
      change (2 ^ 17) with (2 * 2 ^ 16) in Herr'. assert (0 < 2 ^ 16) by reflexivity. nia. }
  destruct (binary_round_aux_exact false N e0) as (m3 & e3 & Hr & Hc).
  - lia.
  - fold dN. fold Ep. unfold k in Hk0. lia.
  - fold dN. fold Ep. fold k. fold X. exact HXpos.
  - fold dN. fold Ep. lia.
  - fold dN in Hc. fold Ep in Hc. fold k in Hc. fold X in Hc.
    fold e0. rewrite Hr.
    rewrite (truncate_rounded m3 e3 Ep X ltac:(lia) Hc). f_equal. fold U.
    fold s. fold P. fold n.
    symmetry. apply Z.div_unique with (r := X - n * U); lia.
Qed.

End RoundFacts.

(** * The claims *)

(** ** The requested size (C1) *)

Lemma resize_and_batch_size lib img M h w c :
  shape img = [h; w; c] ->
  Stylize.resize_and_batch lib img M =
  (let* r := lift (resize lib img (Stylize.new_shape M [h; w])) in Ok (newaxis r)).
Proof.
  intros Hs. unfold Stylize.resize_and_batch, Stylize.spatial_shape, Stylize.new_shape.
  rewrite Hs. reflexivity.
Qed.

(** C1, as stated, fails: an image 3024 pixels high and 2016 pixels wide,
    loaded with [max_dim = 1024], is requested at 1023 x 682, so the longer
    side of the result is not [max_dim]. *)
Lemma longer_side_misses_max_dim :
  Stylize.new_shape 1024 [3024; 2016] = [1023; 682]
  /\ ~ (forall M h w h' w', 0 < M -> 0 < h -> 0 < w ->
        Stylize.new_shape M [h; w] = [h'; w'] -> Z.max h' w' = M).
Proof.
  assert (E : Stylize.new_shape 1024 [3024; 2016] = [1023; 682])
    by (vm_compute; reflexivity).
  split; [exact E|]. intros H.
  specialize (H 1024 3024 2016 1023 682 ltac:(lia) ltac:(lia) ltac:(lia) E). lia.
Qed.

(** C1, amended: for an image of [h] by [w] pixels, both below [2 ^ 24], and
    [0 < max_dim < 2 ^ 23], [load_img] asks the resize for the size
    [(int(h * scale), int(w * scale))] with the one binary32 factor
    [scale = max_dim / max(h, w)].  The longer side of that size is [max_dim]
    or [max_dim - 1], so at most [max_dim] (1024 for the content image), and
    each side is within one pixel of [floor(side * max_dim / max(h, w))]. *)
Theorem load_img_requested_size lib img M h w c :
  shape img = [h; w; c] ->
  0 < M < 2 ^ 23 -> 0 < h < 2 ^ 24 -> 0 < w < 2 ^ 24 ->
  exists h' w',
    Stylize.resize_and_batch lib img M
    = (let* r := lift (resize lib img [h'; w']) in Ok (newaxis r))
    /\ h' = F32.to_int32 (F32.mul (F32.of_Z h)
                            (F32.div (F32.of_Z M) (F32.of_Z (Z.max h w))))
    /\ w' = F32.to_int32 (F32.mul (F32.of_Z w)
                            (F32.div (F32.of_Z M) (F32.of_Z (Z.max h w))))
    /\ M - 1 <= Z.max h' w' <= M
    /\ h * M / Z.max h w - 1 <= h' <= h * M / Z.max h w + 1
    /\ w * M / Z.max h w - 1 <= w' <= w * M / Z.max h w + 1.
Proof.
  intros Hs HM Hh Hw.
  rewrite (resize_and_batch_size lib img M h w c Hs).
  rewrite RoundFacts.new_shape_pair by assumption.
  set (l := Z.max h w).
  assert (Hl : 0 < l < 2 ^ 24) by (unfold l; lia).
  destruct (RoundFacts.side_spec M l h HM Hl ltac:(unfold l; lia)) as (h' & Hh' & Hh0 & Hhc).
  destruct (RoundFacts.side_spec M l w HM Hl ltac:(unfold l; lia)) as (w' & Hw' & Hw0 & Hwc).
  pose proof (RoundFacts.longer_side_spec M l HM Hl) as Hlong.
  exists h', w'. rewrite Hh', Hw'.
  split; [reflexivity|]. split; [reflexivity|]. split; [reflexivity|].
  split; [|split; assumption].
  destruct (Z.max_spec h w) as [[_ E]|[_ E]]; fold l in E.
  - rewrite <- E in Hw' at 1. rewrite Hw' in Hlong. lia.
  - rewrite <- E in Hh' at 1. rewrite Hh' in Hlong. lia.
Qed.

Lemma load_img_requested_size_witness :
  exists h' w',
    Stylize.resize_and_batch Reference.lib (Tensor [3024; 2016; 3] []) 1024
    = (let* r := lift (resize Reference.lib (Tensor [3024; 2016; 3] []) [h'; w'])
       in Ok (newaxis r))
    /\ h' = F32.to_int32 (F32.mul (F32.of_Z 3024)
                            (F32.div (F32.of_Z 1024) (F32.of_Z (Z.max 3024 2016))))
    /\ w' = F32.to_int32 (F32.mul (F32.of_Z 2016)
                            (F32.div (F32.of_Z 1024) (F32.of_Z (Z.max 3024 2016))))
    /\ 1024 - 1 <= Z.max h' w' <= 1024
    /\ 3024 * 1024 / Z.max 3024 2016 - 1 <= h' <= 3024 * 1024 / Z.max 3024 2016 + 1
    /\ 2016 * 1024 / Z.max 3024 2016 - 1 <= w' <= 2016 * 1024 / Z.max 3024 2016 + 1.
Proof.
  apply (load_img_requested_size Reference.lib (Tensor [3024; 2016; 3] []) 1024 3024 2016 3);
    [reflexivity | lia | lia | lia].
Defined.

(** * Further properties of the scripts *)

(** ** The command line of [stylize.py] *)










(** X1. Called with a number of command-line words other than four (the
    script name and three paths), [stylize.py] prints the usage line and
    exits with status 1; it writes no file and sets no variable. *)
Theorem main_usage lib v argv w :
  length argv <> 4%nat ->
  Stylize.main lib v argv w = (Raise (SystemExit 1), print Stylize.usage w)
  /\ exit_code (fst (Stylize.main lib v argv w)) = 1
  /\ stdout (snd (Stylize.main lib v argv w)) = stdout w ++ [Stylize.usage]
  /\ files (snd (Stylize.main lib v argv w)) = files w
  /\ environ (snd (Stylize.main lib v argv w)) = environ w.
Proof.
  intros Hlen.
  assert (E : Stylize.main lib v argv w = (Raise (SystemExit 1), print Stylize.usage w)).
  { unfold Stylize.main. destruct (Z.eqb_spec (Z.of_nat (length argv)) 4); [lia|reflexivity]. }
  rewrite E. repeat split.
Qed.

Lemma main_usage_witness :
  Stylize.main Reference.lib Conversion ["stylize.py"; "content.jpg"] Reference.empty_world
  = (Raise (SystemExit 1), print Stylize.usage Reference.empty_world)
  /\ exit_code (fst (Stylize.main Reference.lib Conversion ["stylize.py"; "content.jpg"]
                                  Reference.empty_world)) = 1
  /\ stdout (snd (Stylize.main Reference.lib Conversion ["stylize.py"; "content.jpg"]
                               Reference.empty_world))
     = stdout Reference.empty_world ++ [Stylize.usage]
  /\ files (snd (Stylize.main Reference.lib Conversion ["stylize.py"; "content.jpg"]
                              Reference.empty_world)) = files Reference.empty_world
  /\ environ (snd (Stylize.main Reference.lib Conversion ["stylize.py"; "content.jpg"]
                                Reference.empty_world)) = environ Reference.empty_world.
Proof.
  apply (main_usage Reference.lib Conversion ["stylize.py"; "content.jpg"]
                    Reference.empty_world).
  cbn [length]. lia.
Defined.



(** ** [tensor_to_image] *)

Lemma tensor_to_image_eq lib t :
  Stylize.tensor_to_image lib t =
  if 3 <? ndim t then
    if hd 0 (shape t) =? 1
    then lift (Image_fromarray lib (index0 (byte_array t)))
    else Raise AssertionError
  else lift (Image_fromarray lib (byte_array t)).
Proof. reflexivity. Qed.

(** X3. [tensor_to_image] fails on its assertion exactly when the tensor has
    more than three axes and the first one is not of size 1. *)
Theorem tensor_to_image_assertion lib t :
  Stylize.tensor_to_image lib t = Raise AssertionError
  <-> 3 < ndim t /\ hd 0 (shape t) <> 1.
Proof.
  rewrite tensor_to_image_eq.
  destruct (Z.ltb_spec 3 (ndim t)) as [Hn|Hn];
    [destruct (Z.eqb_spec (hd 0 (shape t)) 1) as [Hs|Hs]|].
  - split; [|intros [_ H]; contradiction].
    destruct (Image_fromarray lib (index0 (byte_array t))); discriminate.
  - split; [intros _; split; assumption|reflexivity].
  - split; [|intros [H _]; lia].
    destruct (Image_fromarray lib (byte_array t)); discriminate.
Qed.

(** X4. On a batch of one image, [tensor_to_image] hands [Image.fromarray]
    the image without its batch axis and with every byte of the batch; on a
    tensor of at most three axes it hands it the whole array. *)
Theorem tensor_to_image_array lib t :
  (forall s, shape t = 1 :: s -> (3 <= length s)%nat ->
             Z.of_nat (length (data t)) = numel s ->
             Stylize.tensor_to_image lib t
             = lift (Image_fromarray lib (Tensor s (data (byte_array t)))))
  /\ (ndim t <= 3 ->
      Stylize.tensor_to_image lib t = lift (Image_fromarray lib (byte_array t))).
Proof.
  rewrite tensor_to_image_eq. split.
  - intros s Hs Hlen Hdata. unfold ndim. rewrite Hs. cbn [length hd].
    destruct (Z.ltb_spec 3 (Z.of_nat (S (length s)))) as [_|H]; [|lia].
    cbn [Z.eqb Pos.eqb]. unfold index0, byte_array, tmap. cbn [shape data].
    rewrite Hs. cbn [tl]. rewrite firstn_all2; [reflexivity|].
    rewrite !length_map. lia.
  - intros Hn. destruct (Z.ltb_spec 3 (ndim t)); [lia|reflexivity].
Qed.

Lemma tensor_to_image_array_witness :
  (forall s, shape (Tensor [1; 1; 2; 3] (repeat F32.one 6)) = 1 :: s ->
             (3 <= length s)%nat ->
             Z.of_nat (length (data (Tensor [1; 1; 2; 3] (repeat F32.one 6)))) = numel s ->
             Stylize.tensor_to_image Reference.lib (Tensor [1; 1; 2; 3] (repeat F32.one 6))
             = lift (Image_fromarray Reference.lib
                       (Tensor s (data (byte_array (Tensor [1; 1; 2; 3] (repeat F32.one 6)))))))
  /\ (ndim (Tensor [1; 1; 2; 3] (repeat F32.one 6)) <= 3 ->
      Stylize.tensor_to_image Reference.lib (Tensor [1; 1; 2; 3] (repeat F32.one 6))
      = lift (Image_fromarray Reference.lib
                (byte_array (Tensor [1; 1; 2; 3] (repeat F32.one 6))))).
Proof.
  exact (tensor_to_image_array Reference.lib (Tensor [1; 1; 2; 3] (repeat F32.one 6))).
Defined.

(** X5. For every binary32 value [v] of the unit interval, the byte that
    [tensor_to_image] writes is [floor (255 * v)] for the exact product; it
    lies between 0 and 255, and it is 255 only for [v = 1.0]. *)
Theorem byte_is_floor v :
  F32.valid v = true -> F32.in_unit v = true ->
  F32.floor_times 255 v = Some (F32.to_uint8 (F32.mul v (F32.of_Z 255)))
  /\ 0 <= F32.to_uint8 (F32.mul v (F32.of_Z 255)) <= 255
  /\ (F32.to_uint8 (F32.mul v (F32.of_Z 255)) = 255 <-> v = F32.one).
Proof.
  intros Hv Hu. destruct v as [s|s| |s m e].
  - (* zero *)
    assert (E : F32.to_uint8 (F32.mul (S754_zero s) (F32.of_Z 255)) = 0)
      by (destruct s; reflexivity).
    rewrite E. split; [reflexivity|]. split; [lia|]. split; [discriminate|].
    rewrite RoundFacts.one_eq. discriminate.
  - destruct s; discriminate Hu.
  - discriminate Hu.
  - destruct (RoundFacts.in_unit_finite s m e Hu) as [-> Hrange].
    destruct (RoundFacts.byte_of_unit m e Hv Hrange) as [Ht Hb].
    set (n := 255 * Z.pos m / 2 ^ (- e)) in *.
    assert (Hi : F32.to_int32 (F32.mul (S754_finite false m e) (F32.of_Z 255)) = n).
    { apply RoundFacts.to_int32_of_truncate; [exact Ht|].
      unfold F32.INT32_MIN, F32.INT32_MAX.
      change (2 ^ 31) with 2147483648. lia. }
    assert (Hu8 : F32.to_uint8 (F32.mul (S754_finite false m e) (F32.of_Z 255)) = n).
    { unfold F32.to_uint8. rewrite Hi. apply Z.mod_small. lia. }
    rewrite Hu8. split; [|split; [exact Hb|]].
    + cbn [F32.floor_times]. destruct (Z.leb_spec 0 e); [lia|reflexivity].
    + apply RoundFacts.valid_finite in Hv. destruct Hv as [Hcan _].
      rewrite RoundFacts.fexp32_eq in Hcan.
      pose proof (RoundFacts.Zdigits2_bounds (Z.pos m) ltac:(lia)) as [Hdlo Hdhi].
      rewrite RoundFacts.one_eq. split.
      * intros Hn.
        assert (H2s : 0 < 2 ^ (- e)) by (apply RoundFacts.pow2_pos; lia).
        assert (Hge : 255 * 2 ^ (- e) <= 255 * Z.pos m).
        { unfold n in Hn.
          pose proof (Z.mul_div_le (255 * Z.pos m) (2 ^ (- e)) H2s) as Hmd.
          rewrite Hn in Hmd. lia. }
        assert (Hm : 2 ^ (- e) <= Z.pos m) by lia.
        destruct Hrange as [He|[He Hm23]].
        -- exfalso.
           assert (2 ^ 24 <= 2 ^ (- e)) by (apply Z.pow_le_mono_r; lia).
           assert (2 ^ Zdigits2 (Z.pos m) <= 2 ^ 24) by (apply Z.pow_le_mono_r; lia).
           lia.
        -- subst e. change (2 ^ (- -23)) with (2 ^ 23) in Hm.
           assert (Hm' : Z.pos m = Z.pos 8388608) by (change (Z.pos 8388608) with (2 ^ 23); lia).
           injection Hm' as ->. reflexivity.
      * intros H. injection H as -> ->. reflexivity.
Qed.

Lemma byte_is_floor_witness :
  F32.floor_times 255 (Stylize.normalize_pixel 128)
  = Some (F32.to_uint8 (F32.mul (Stylize.normalize_pixel 128) (F32.of_Z 255)))
  /\ 0 <= F32.to_uint8 (F32.mul (Stylize.normalize_pixel 128) (F32.of_Z 255)) <= 255
  /\ (F32.to_uint8 (F32.mul (Stylize.normalize_pixel 128) (F32.of_Z 255)) = 255
      <-> Stylize.normalize_pixel 128 = F32.one).
Proof.
  apply (byte_is_floor (Stylize.normalize_pixel 128)); reflexivity.
Defined.

(** ** Pixels through the pipeline *)

Lemma normalize_table :
  forallb (fun k =>
             F32.valid (Stylize.normalize_pixel k)
             && F32.in_unit (Stylize.normalize_pixel k)
             && (F32.to_uint8 (F32.mul (Stylize.normalize_pixel k) (F32.of_Z 255)) =? k))
          (Zrange 0 256) = true.
Proof. vm_compute. reflexivity. Qed.

Lemma convert_image_dtype_table :
  forallb (fun k =>
             F32.valid (Stylize.convert_image_dtype_pixel k)
             && F32.in_unit (Stylize.convert_image_dtype_pixel k)
             && (F32.to_uint8 (F32.mul (Stylize.convert_image_dtype_pixel k) (F32.of_Z 255))
                 =? k))
          (Zrange 0 256) = true.
Proof. vm_compute. reflexivity. Qed.

(** X6. In [conversion/stylize.py] every 8-bit pixel value [k] becomes the
    binary32 value [k / 255.0] of the unit interval (0 for 0, 1.0 for 255),
    and [tensor_to_image] maps that value back to the byte [k]. *)
Theorem normalize_round_trip k :
  0 <= k <= 255 ->
  Contract.unit_pixel (Stylize.normalize_pixel k)
  /\ F32.to_uint8 (F32.mul (Stylize.normalize_pixel k) (F32.of_Z 255)) = k
  /\ Stylize.normalize_pixel 0 = F32.zero
  /\ Stylize.normalize_pixel 255 = F32.one.
Proof.
  intros Hk. pose proof normalize_table as H. rewrite forallb_forall in H.
  specialize (H k (RoundFacts.In_Zrange 0 256 k ltac:(lia))).
  rewrite !andb_true_iff in H. destruct H as [[Hv Hu] Hb].
  apply Z.eqb_eq in Hb. repeat split; try assumption; reflexivity.
Qed.

Lemma normalize_round_trip_witness :
  Contract.unit_pixel (Stylize.normalize_pixel 200)
  /\ F32.to_uint8 (F32.mul (Stylize.normalize_pixel 200) (F32.of_Z 255)) = 200
  /\ Stylize.normalize_pixel 0 = F32.zero
  /\ Stylize.normalize_pixel 255 = F32.one.
Proof. apply (normalize_round_trip 200). lia. Defined.

(** X7. In [tensorflow/stylize.py] every 8-bit pixel value [k] becomes the
    binary32 value [k * (1 / 255)] of the unit interval, and
    [tensor_to_image] maps that value back to the byte [k]. *)
Theorem convert_image_dtype_round_trip k :
  0 <= k <= 255 ->
  Contract.unit_pixel (Stylize.convert_image_dtype_pixel k)
  /\ F32.to_uint8 (F32.mul (Stylize.convert_image_dtype_pixel k) (F32.of_Z 255)) = k.
Proof.
  intros Hk. pose proof convert_image_dtype_table as H. rewrite forallb_forall in H.
  specialize (H k (RoundFacts.In_Zrange 0 256 k ltac:(lia))).
  rewrite !andb_true_iff in H. destruct H as [[Hv Hu] Hb].
  apply Z.eqb_eq in Hb. repeat split; assumption.
Qed.

Lemma convert_image_dtype_round_trip_witness :
  Contract.unit_pixel (Stylize.convert_image_dtype_pixel 255)
  /\ F32.to_uint8 (F32.mul (Stylize.convert_image_dtype_pixel 255) (F32.of_Z 255)) = 255.
Proof. apply (convert_image_dtype_round_trip 255). lia. Defined.

(** ** Decoding in [load_img] *)

Lemma append_nil_l s : (EmptyString ++ s)%string = s.
Proof. reflexivity. Qed.

Lemma append_cons c p s : (String c p ++ s)%string = String c (p ++ s)%string.
Proof. reflexivity. Qed.

Lemma endswith_iff s suffix :
  endswith s suffix = true <-> exists p, s = (p ++ suffix)%string.
Proof.
  split.
  - induction s as [|c s IH]; cbn [endswith]; rewrite orb_true_iff; intros [H|H].
    + apply String.eqb_eq in H. exists EmptyString. rewrite append_nil_l. exact H.
    + discriminate H.
    + apply String.eqb_eq in H. exists EmptyString. rewrite append_nil_l. exact H.
    + destruct (IH H) as [p Hp]. exists (String c p). rewrite append_cons. now rewrite Hp.
  - intros [p Hp]. revert s Hp. induction p as [|c p IH]; intros s Hp.
    + rewrite append_nil_l in Hp. subst s.
      destruct suffix; cbn [endswith]; rewrite orb_true_iff; left; apply String.eqb_refl.
    + rewrite append_cons in Hp. subst s. cbn [endswith].
      rewrite (IH _ eq_refl). apply orb_true_r.
Qed.

Lemma lower_app a b : lower (a ++ b)%string = (lower a ++ lower b)%string.
Proof.
  induction a as [|c a IH].
  - reflexivity.
  - rewrite append_cons. cbn [lower]. rewrite append_cons. now rewrite IH.
Qed.

Lemma lower_split s p q :
  lower s = (p ++ q)%string ->
  exists a b, s = (a ++ b)%string /\ lower a = p /\ lower b = q.
Proof.
  revert s. induction p as [|c p IH]; intros s H.
  - exists EmptyString, s. repeat split. rewrite append_nil_l in H. exact H.
  - destruct s as [|d s]; [discriminate H|].
    cbn [lower] in H. rewrite append_cons in H. injection H as Hc Hs.
    destruct (IH s Hs) as (a & b & -> & Ha & Hb).
    exists (String d a), b. repeat split; [|exact Hb]. cbn [lower]. now rewrite Hc, Ha.
Qed.

(** X8. [load_img] of [conversion/stylize.py] takes the pillow_heif branch
    exactly for the paths that end in [.heic] in any mix of upper and lower
    case: the choice looks at the name only. *)
Theorem is_heic_path_iff path :
  Stylize.is_heic_path path = true
  <-> exists stem ext, path = (stem ++ ext)%string /\ lower ext = ".heic"%string.
Proof.
  unfold Stylize.is_heic_path. rewrite endswith_iff. split.
  - intros [p Hp]. destruct (lower_split _ _ _ Hp) as (a & b & -> & _ & Hb).
    exists a, b. split; [reflexivity|exact Hb].
  - intros (stem & ext & -> & Hext). exists (lower stem).
    now rewrite lower_app, Hext.
Qed.

(** X9. In [conversion/stylize.py] a path that ends in [.heic] is decoded by
    pillow_heif and [Image.frombytes] alone, every other path by
    [Image.open] alone: the decoders of the other branch have no influence
    on the result. *)
Theorem open_image_branch lib1 lib2 fs path :
  (Stylize.is_heic_path path = true ->
   read_heif lib1 = read_heif lib2 ->
   Image_frombytes lib1 = Image_frombytes lib2 ->
   Stylize.open_image lib1 fs path = Stylize.open_image lib2 fs path)
  /\ (Stylize.is_heic_path path = false ->
      Image_open lib1 = Image_open lib2 ->
      Stylize.open_image lib1 fs path = Stylize.open_image lib2 fs path).
Proof.
  unfold Stylize.open_image. split.
  - intros -> Hr Hf. now rewrite Hr, Hf.
  - intros -> Ho. now rewrite Ho.
Qed.

(** X10. When the path names no regular file, [load_img] raises the file
    error of the failed read in both scripts (the error of [Image.open] or
    [read_heif], or of [tf.io.read_file]), whatever the decoders and the
    resize would do. *)
Theorem load_img_missing_file lib v fs path max_dim :
  (forall b, fs !! path <> Some (File b)) ->
  Stylize.load_img lib v fs path max_dim = Raise OSError.
Proof.
  intros Hmiss.
  assert (Hr : read_file fs path = Raise OSError).
  { unfold read_file. destruct (fs !! path) as [[b|m]|] eqn:E; try reflexivity.
    exfalso. exact (Hmiss b eq_refl). }
  unfold Stylize.load_img, Stylize.decode, Stylize.open_image.
  destruct v; [destruct (Stylize.is_heic_path path)|]; rewrite Hr; reflexivity.
Qed.

Lemma load_img_missing_file_witness :
  Stylize.load_img Reference.lib Conversion Reference.fs "absent.jpg" 1024 = Raise OSError.
Proof.
  apply (load_img_missing_file Reference.lib Conversion Reference.fs "absent.jpg" 1024).
  intros b. vm_compute. discriminate.
Defined.

Lemma open_image_branch_witness :
  Stylize.open_image Reference.lib Reference.fs "style.HEIC"
  = Stylize.open_image Reference.without_open Reference.fs "style.HEIC".
Proof.
  apply (proj1 (open_image_branch Reference.lib Reference.without_open
                                  Reference.fs "style.HEIC")); reflexivity.
Defined.

(** ** Degenerate images *)

Lemma mul_zero_not_positive s y : F32.to_int32 (F32.mul (S754_zero s) y) <= 0.
Proof.
  assert (H0 : forall b, F32.to_int32 (S754_zero b) = 0) by (intros []; reflexivity).
  assert (Hn : F32.to_int32 S754_nan = F32.INT32_MIN) by reflexivity.
  assert (Hm : F32.INT32_MIN <= 0) by (vm_compute; discriminate).
  destruct y as [sy|sy| |sy m e]; unfold F32.mul, SFmul.
  - rewrite H0. lia.
  - rewrite Hn. exact Hm.
  - rewrite Hn. exact Hm.
  - rewrite H0. lia.
Qed.

(** X11. For a decoded image with a side of zero pixels, the size that
    [load_img] requests has an entry that is not positive; a resize that
    rejects such sizes (as [tf.image.resize] does) makes [load_img] raise.
    [load_img] has no check of its own. *)
Theorem load_img_degenerate lib v fs path max_dim img h w c :
  Contract.resize_positive lib ->
  Stylize.decode lib v fs path = Ok img ->
  shape img = [h; w; c] -> h = 0 \/ w = 0 ->
  (exists n, In n (Stylize.new_shape max_dim [h; w]) /\ n <= 0)
  /\ Stylize.load_img lib v fs path max_dim = Raise LibraryError.
Proof.
  intros Hpos Hdec Hs Hz.
  assert (Hn : exists n, In n (Stylize.new_shape max_dim [h; w]) /\ n <= 0).
  { unfold Stylize.new_shape, Stylize.new_shape_of. cbn [map].
    destruct Hz as [-> | ->].
    - eexists. split; [left; reflexivity|].
      change (F32.of_Z 0) with (S754_zero false). apply mul_zero_not_positive.
    - eexists. split; [right; left; reflexivity|].
      change (F32.of_Z 0) with (S754_zero false). apply mul_zero_not_positive. }
  split; [exact Hn|].
  unfold Stylize.load_img. rewrite Hdec. cbn [bind].
  rewrite (resize_and_batch_size lib img max_dim h w c Hs).
  destruct Hn as (n & Hin & Hle). rewrite (Hpos img _ n Hin Hle). reflexivity.
Qed.

(** X12. For an image of zero by zero pixels and [0 < max_dim < 2 ^ 24], the
    scale computation goes through without an error: the longer side is 0,
    the scale [max_dim / 0] is plus infinity and the scaled sides [0 * scale]
    are not-a-number. *)
Theorem scale_of_empty_image max_dim :
  0 < max_dim < 2 ^ 24 ->
  Stylize.reduce_max [F32.of_Z 0; F32.of_Z 0] = F32.zero
  /\ Stylize.scale_of max_dim [F32.of_Z 0; F32.of_Z 0] = S754_infinity false
  /\ F32.mul (F32.of_Z 0) (Stylize.scale_of max_dim [F32.of_Z 0; F32.of_Z 0]) = S754_nan.
Proof.
  intros HM.
  assert (Hr : Stylize.reduce_max [F32.of_Z 0; F32.of_Z 0] = F32.zero) by reflexivity.
  assert (Hs : Stylize.scale_of max_dim [F32.of_Z 0; F32.of_Z 0] = S754_infinity false).
  { unfold Stylize.scale_of. rewrite Hr.
    destruct (RoundFacts.of_Z_small max_dim HM) as (m & e & -> & _). reflexivity. }
  split; [exact Hr|]. split; [exact Hs|]. rewrite Hs. reflexivity.
Qed.

Lemma scale_of_empty_image_witness :
  Stylize.reduce_max [F32.of_Z 0; F32.of_Z 0] = F32.zero
  /\ Stylize.scale_of 1024 [F32.of_Z 0; F32.of_Z 0] = S754_infinity false
  /\ F32.mul (F32.of_Z 0) (Stylize.scale_of 1024 [F32.of_Z 0; F32.of_Z 0]) = S754_nan.
Proof. apply (scale_of_empty_image 1024). lia. Defined.

(** ** The reference libraries meet the contracts *)

Lemma reference_resize_positive : Contract.resize_positive Reference.lib.
Proof.
  intros img size n Hin Hn. cbn [resize Reference.lib]. unfold Reference.tf_resize.
  destruct (shape img) as [|h [|w [|c [|? ?]]]]; try reflexivity;
    try (destruct size; reflexivity).
  destruct size as [|h' [|w' [|? ?]]]; try reflexivity.
  destruct Hin as [->|[->|[]]].
  - destruct (Z.ltb_spec 0 n); [lia|reflexivity].
  - destruct (Z.ltb_spec 0 n); [lia|]. rewrite andb_false_r. reflexivity.
Qed.

Lemma reference_resize_inv img size out :
  Reference.tf_resize img size = Some out ->
  exists h w c h' w',
    shape img = [h; w; c] /\ size = [h'; w'] /\ 0 < h' /\ 0 < w'
    /\ out = Tensor [h'; w'; c] (Reference.nearest img h w c h' w').
Proof.
  unfold Reference.tf_resize.
  destruct (shape img) as [|h [|w [|c [|? ?]]]]; try discriminate;
    try (destruct size; discriminate).
  destruct size as [|h' [|w' [|? ?]]]; try discriminate.
  destruct (Z.ltb_spec 0 h'); [|discriminate].
  destruct (Z.ltb_spec 0 w'); [|discriminate].
  cbn [andb]. intros [= <-]. exists h, w, c, h', w'. repeat split; assumption.
Qed.

Lemma reference_resize_shape : Contract.resize_shape Reference.lib.
Proof.
  intros img size out H. cbn [resize Reference.lib] in H.
  destruct (reference_resize_inv _ _ _ H) as (h & w & c & h' & w' & Hs & -> & _ & _ & ->).
  split; [reflexivity|]. intros _. rewrite Hs. reflexivity.
Qed.

Lemma unit_pixel_zero : Contract.unit_pixel F32.zero.
Proof. split; reflexivity. Qed.

Lemma Forall_nth_default {A} (P : A -> Prop) (l : list A) (d : A) (n : nat) :
  Forall P l -> P d -> P (nth n l d).
Proof.
  intros Hl Hd. revert n. induction Hl as [|x l Hx _ IH]; intros [|n]; cbn [nth]; auto.
Qed.

Lemma reference_resize_unit : Contract.resize_unit Reference.lib.
Proof.
  intros img size out H Hin. cbn [resize Reference.lib] in H.
  destruct (reference_resize_inv _ _ _ H) as (h & w & c & h' & w' & _ & _ & _ & _ & ->).
  cbn [data]. unfold Reference.nearest. apply List.Forall_forall. intros v Hv.
  apply in_flat_map in Hv. destruct Hv as (y & _ & Hv).
  apply in_flat_map in Hv. destruct Hv as (x & _ & Hv).
  apply in_map_iff in Hv. destruct Hv as (ch & <- & _).
  apply Forall_nth_default; [exact Hin | exact unit_pixel_zero].
Qed.

Lemma byte_pixel_byte k : Contract.byte_pixel (Reference.byte k).
Proof.
  unfold Contract.byte_pixel, Reference.byte.
  pose proof (Z.mod_pos_bound k 256 ltac:(lia)). lia.
Qed.

Lemma Forall_map_byte l : Forall Contract.byte_pixel (map Reference.byte l).
Proof. induction l; cbn [map]; constructor; auto using byte_pixel_byte. Qed.

Lemma Forall_group3 (P : Z -> Prop) (l : list Z) :
  Forall P l -> Forall (Forall P) (Reference.group3 l).
Proof.
  revert l. fix IH 2. intros l H.
  destruct H as [|r l Hr H]; [constructor|].
  destruct H as [|g l Hg H]; [constructor|].
  destruct H as [|b l Hb H]; [constructor|].
  cbn [Reference.group3]. constructor; [repeat constructor; assumption|].
  apply IH, H.
Qed.

Lemma reference_decoders_8bit : Contract.decoders_8bit Reference.lib.
Proof.
  split; [|split].
  - intros b img H. cbn [Image_open Reference.lib] in H. unfold Reference.pil_open in H.
    destruct b as [|t [|w [|h px]]]; try discriminate;
      try (destruct t as [|[| |]|]; discriminate).
    destruct t as [|[| |]|]; try discriminate. injection H as <-.
    cbn [pixels]. apply Forall_group3, Forall_map_byte.
  - intros m size bytes rawmode stride img H.
    cbn [Image_frombytes Reference.lib] in H. unfold Reference.frombytes in H.
    destruct m; try discriminate. injection H as <-.
    cbn [pixels]. apply Forall_group3, Forall_map_byte.
  - intros b t H. cbn [decode_image Reference.lib] in H. unfold Reference.tf_decode in H.
    destruct b as [|t0 [|w [|h px]]]; try discriminate;
      try (destruct t0 as [|[| |]|]; discriminate).
    destruct t0 as [|[| |]|]; try discriminate. injection H as <-.
    cbn [data]. apply Forall_map_byte.
Qed.

Lemma reference_decode_three_channels : Contract.decode_three_channels Reference.lib.
Proof.
  intros b t H. cbn [decode_image Reference.lib] in H. unfold Reference.tf_decode in H.
  destruct b as [|t0 [|w [|h px]]]; try discriminate;
    try (destruct t0 as [|[| |]|]; discriminate).
  destruct t0 as [|[| |]|]; try discriminate. injection H as <-. reflexivity.
Qed.

Lemma load_img_degenerate_witness :
  (exists n, In n (Stylize.new_shape 1024 [0; 0]) /\ n <= 0)
  /\ Stylize.load_img Reference.lib Conversion
                      (<["empty.jpg" := File [1; 0; 0]]> ∅) "empty.jpg" 1024
     = Raise LibraryError.
Proof.
  apply (load_img_degenerate Reference.lib Conversion
           (<["empty.jpg" := File [1; 0; 0]]> ∅) "empty.jpg" 1024
           (Tensor [0; 0; 3] []) 0 0 3 reference_resize_positive).
  - vm_compute. reflexivity.
  - reflexivity.
  - left. reflexivity.
Defined.

(** ** The tensor that [load_img] returns *)

Lemma decode_shape lib v fs path img :
  Contract.decode_three_channels lib ->
  Stylize.decode lib v fs path = Ok img ->
  List.last (shape img) 0 = 3.
Proof.
  intros H3 Hd. destruct v; cbn [Stylize.decode] in Hd.
  - destruct (Stylize.open_image lib fs path) as [im|e]; [|discriminate].
    cbn [bind] in Hd. injection Hd as <-. reflexivity.
  - destruct (read_file fs path) as [b|e]; [|discriminate]. cbn [bind] in Hd.
    destruct (decode_image lib b) as [t|] eqn:Ht; [|discriminate].
    cbn [lift bind] in Hd. injection Hd as <-. cbn [tmap shape]. exact (H3 b t Ht).
Qed.

(** X13. When [load_img] returns, the tensor is a batch of one image with
    three channels: its shape is [(1, h', w', 3)], where [(h', w')] is the
    size computed from the shape of the decoded image.  This relies on the
    resize returning the requested size and, in [tensorflow/stylize.py], on
    [decode_image(channels=3)] returning three channels. *)
Theorem load_img_shape lib v fs path max_dim t :
  Contract.resize_shape lib ->
  Contract.decode_three_channels lib ->
  Stylize.load_img lib v fs path max_dim = Ok t ->
  exists img h w,
    Stylize.decode lib v fs path = Ok img
    /\ shape img = [h; w; 3]
    /\ shape t = 1 :: Stylize.new_shape max_dim [h; w] ++ [3]
    /\ length (shape t) = 4%nat.
Proof.
  intros Hrs H3 Hl. unfold Stylize.load_img in Hl.
  destruct (Stylize.decode lib v fs path) as [img|e] eqn:Hd; [|discriminate].
  cbn [bind] in Hl. unfold Stylize.resize_and_batch in Hl.
  destruct (resize lib img _) as [out|] eqn:Hr; [|discriminate].
  cbn [lift bind] in Hl. injection Hl as <-.
  destruct (Hrs _ _ _ Hr) as [Hlen Hout].
  pose proof (decode_shape lib v fs path img H3 Hd) as Hlast.
  unfold Stylize.new_shape_of, Stylize.spatial_shape in Hlen.
  rewrite !length_map in Hlen.
  destruct (shape img) as [|h [|w [|c [|? ?]]]] eqn:Hs; try discriminate Hlen.
  cbn [List.last] in Hlast. subst c.
  exists img, h, w. split; [reflexivity|]. split; [exact Hs|].
  specialize (Hout eq_refl). cbn [newaxis shape]. rewrite Hout.
  unfold Stylize.spatial_shape. rewrite Hs. cbn [removelast List.last].
  split; [reflexivity|]. unfold Stylize.new_shape, Stylize.new_shape_of.
  cbn [map app length]. reflexivity.
Qed.

Lemma load_img_shape_witness :
  match Stylize.load_img Reference.lib Conversion Reference.fs "content.jpg" 4 with
  | Ok t => exists img h w,
      Stylize.decode Reference.lib Conversion Reference.fs "content.jpg" = Ok img
      /\ shape img = [h; w; 3]
      /\ shape t = 1 :: Stylize.new_shape 4 [h; w] ++ [3]
      /\ length (shape t) = 4%nat
  | Raise _ => False
  end.
Proof.
  destruct (Stylize.load_img Reference.lib Conversion Reference.fs "content.jpg" 4)
    as [t|e] eqn:E.
  - exact (load_img_shape Reference.lib Conversion Reference.fs "content.jpg" 4 t
             reference_resize_shape reference_decode_three_channels E).
  - vm_compute in E. discriminate E.
Defined.

Lemma normalize_pixel_unit k :
  Contract.byte_pixel k -> Contract.unit_pixel (Stylize.normalize_pixel k).
Proof.
  intros Hk. pose proof normalize_table as H. rewrite forallb_forall in H.
  specialize (H k (RoundFacts.In_Zrange 0 256 k ltac:(unfold Contract.byte_pixel in Hk; lia))).
  rewrite !andb_true_iff in H. destruct H as [[Hv Hu] _]. split; assumption.
Qed.

Lemma convert_image_dtype_pixel_unit k :
  Contract.byte_pixel k -> Contract.unit_pixel (Stylize.convert_image_dtype_pixel k).
Proof.
  intros Hk. pose proof convert_image_dtype_table as H. rewrite forallb_forall in H.
  specialize (H k (RoundFacts.In_Zrange 0 256 k ltac:(unfold Contract.byte_pixel in Hk; lia))).
  rewrite !andb_true_iff in H. destruct H as [[Hv Hu] _]. split; assumption.
Qed.

Lemma rgb_of_pixel_byte m px :
  Forall Contract.byte_pixel px -> Forall Contract.byte_pixel (Stylize.rgb_of_pixel m px).
Proof.
  assert (H0 : Forall Contract.byte_pixel [0; 0; 0])
    by (repeat constructor; unfold Contract.byte_pixel; lia).
  intros H. destruct m; unfold Stylize.rgb_of_pixel.
  - destruct H as [|v px Hv H]; [exact H0|]. repeat (constructor; [assumption|]); constructor.
  - destruct H as [|v px Hv H]; [exact H0|]. repeat (constructor; [assumption|]); constructor.
  - destruct H as [|r px Hr H]; [exact H0|]. destruct H as [|g px Hg H]; [exact H0|].
    destruct H as [|b px Hb H]; [exact H0|]. repeat (constructor; [assumption|]); constructor.
  - destruct H as [|r px Hr H]; [exact H0|]. destruct H as [|g px Hg H]; [exact H0|].
    destruct H as [|b px Hb H]; [exact H0|]. repeat (constructor; [assumption|]); constructor.
Qed.

Lemma convert_RGB_byte img :
  Forall (Forall Contract.byte_pixel) (pixels img) ->
  Forall Contract.byte_pixel (data (Stylize.np_array (Stylize.convert_RGB img))).
Proof.
  intros H. unfold Stylize.np_array, Stylize.convert_RGB. cbn [data pixels].
  induction H as [|px l Hpx _ IH]; cbn [map concat]; [constructor|].
  apply List.Forall_app. split; [apply rgb_of_pixel_byte, Hpx | exact IH].
Qed.

Lemma open_image_byte lib fs path img :
  Contract.decoders_8bit lib ->
  Stylize.open_image lib fs path = Ok img ->
  Forall (Forall Contract.byte_pixel) (pixels img).
Proof.
  intros (Hopen & Hfrom & _) H. unfold Stylize.open_image in H.
  destruct (Stylize.is_heic_path path).
  - destruct (read_file fs path) as [b|e]; [|discriminate]. cbn [bind] in H.
    destruct (read_heif lib b) as [hf|]; [|discriminate]. cbn [lift bind] in H.
    destruct (Image_frombytes lib _ _ _ _ _) as [im|] eqn:Hf; [|discriminate].
    cbn [lift] in H. injection H as <-. exact (Hfrom _ _ _ _ _ _ Hf).
  - destruct (read_file fs path) as [b|e]; [|discriminate]. cbn [bind] in H.
    destruct (Image_open lib b) as [im|] eqn:Ho; [|discriminate].
    cbn [lift] in H. injection H as <-. exact (Hopen _ _ Ho).
Qed.

Lemma decode_unit lib v fs path img :
  Contract.decoders_8bit lib ->
  Stylize.decode lib v fs path = Ok img ->
  Forall Contract.unit_pixel (data img).
Proof.
  intros H8 Hd. destruct v; cbn [Stylize.decode] in Hd.
  - destruct (Stylize.open_image lib fs path) as [im|e] eqn:Ho; [|discriminate].
    cbn [bind] in Hd. injection Hd as <-. cbn [tmap data].
    pose proof (convert_RGB_byte im (open_image_byte lib fs path im H8 Ho)) as Hb.
    induction Hb as [|k l Hk _ IH]; cbn [map]; constructor; [|exact IH].
    exact (normalize_pixel_unit k Hk).
  - destruct H8 as (_ & _ & Hdec).
    destruct (read_file fs path) as [b|e]; [|discriminate]. cbn [bind] in Hd.
    destruct (decode_image lib b) as [t|] eqn:Ht; [|discriminate].
    cbn [lift bind] in Hd. injection Hd as <-. cbn [tmap data].
    pose proof (Hdec b t Ht) as Hb.
    induction Hb as [|k l Hk _ IH]; cbn [map]; constructor; [|exact IH].
    exact (convert_image_dtype_pixel_unit k Hk).
Qed.

(** X14. When [load_img] returns, every value of the tensor is a binary32
    number of the unit interval.  This relies on the decoders returning 8-bit
    pixels and on the resize keeping values of the unit interval there;
    the normalisation ([/ 255.0], [convert_image_dtype]) is the code's. *)
Theorem load_img_unit_interval lib v fs path max_dim t :
  Contract.decoders_8bit lib ->
  Contract.resize_unit lib ->
  Stylize.load_img lib v fs path max_dim = Ok t ->
  Forall Contract.unit_pixel (data t).
Proof.
  intros H8 Hru Hl. unfold Stylize.load_img in Hl.
  destruct (Stylize.decode lib v fs path) as [img|e] eqn:Hd; [|discriminate].
  cbn [bind] in Hl. unfold Stylize.resize_and_batch in Hl.
  destruct (resize lib img _) as [out|] eqn:Hr; [|discriminate].
  cbn [lift bind] in Hl. injection Hl as <-. cbn [newaxis data].
  exact (Hru _ _ _ Hr (decode_unit lib v fs path img H8 Hd)).
Qed.

Lemma load_img_unit_interval_witness :
  match Stylize.load_img Reference.lib Tensorflow Reference.fs "content.jpg" 4 with
  | Ok t => Forall Contract.unit_pixel (data t)
  | Raise _ => False
  end.
Proof.
  destruct (Stylize.load_img Reference.lib Tensorflow Reference.fs "content.jpg" 4)
    as [t|e] eqn:E.
  - exact (load_img_unit_interval Reference.lib Tensorflow Reference.fs "content.jpg" 4 t
             reference_decoders_8bit reference_resize_unit E).
  - vm_compute in E. discriminate E.
Defined.

(** ** What [stylize.py] reads and what it writes *)








(** X17. Without a saved model at [/app/saved_model], [stylize.py] raises the
    error of loading the model whatever the image paths are, before it reads
    an image, and changes no file. *)
Theorem main_model_missing lib v argv w :
  length argv = 4%nat ->
  (forall m, files w !! Stylize.saved_model_path <> Some (Dir (Some m))) ->
  fst (Stylize.main lib v argv w) = Raise OSError
  /\ files (snd (Stylize.main lib v argv w)) = files w.
Proof.
  intros Hlen Hm. unfold Stylize.main.
  destruct (Z.eqb_spec (Z.of_nat (length argv)) 4) as [_|Hne]; [|lia].
  cbn [negb files setenv]. unfold Stylize.pipeline, saved_model_load.
  destruct (files w !! Stylize.saved_model_path) as [[b|[m|]]|] eqn:E;
    try (split; reflexivity).
  exfalso. exact (Hm m eq_refl).
Qed.

Lemma main_model_missing_witness :
  fst (Stylize.main Reference.lib Conversion
         ["stylize.py"; "content.jpg"; "style.HEIC"; "out.png"]
         (World [] ∅ (<["content.jpg" := File Reference.raster]> ∅))) = Raise OSError
  /\ files (snd (Stylize.main Reference.lib Conversion
                   ["stylize.py"; "content.jpg"; "style.HEIC"; "out.png"]
                   (World [] ∅ (<["content.jpg" := File Reference.raster]> ∅))))
     = files (World [] ∅ (<["content.jpg" := File Reference.raster]> ∅)).
Proof.
  apply (main_model_missing Reference.lib Conversion
           ["stylize.py"; "content.jpg"; "style.HEIC"; "out.png"]
           (World [] ∅ (<["content.jpg" := File Reference.raster]> ∅))).
  - reflexivity.
  - intros m. vm_compute. discriminate.
Defined.

(** ** [fetch_model.py] *)














